(** * cupy/creation/basic.py: array creation and layout resolution

    A shallow embedding of the creation routines of [cupy.creation.basic]
    ([empty], [empty_like], [eye], [identity], [ones], [ones_like], [zeros],
    [zeros_like], [full], [full_like]) and of the layout resolver
    [_new_like_order_and_strides] they share, followed by the properties
    stated about them.

    Python integers are unbounded and are embedded as [Z]; the entries of
    the [numpy.intp] work arrays are embedded as [Z] as well (word size and
    device memory limits are outside the model: an allocation always
    succeeds).  Python strings are [string]; exceptions are values of
    [exn] carried by the [Raise] case of [result]. *)

From Stdlib Require Import ZArith String Lia.
From stdpp Require Import base tactics option list strings sorting.

Local Open Scope Z_scope.

(** ** Values, exceptions, device memory *)

(** The kind of a NumPy dtype ([dtype.kind]): boolean, signed integer,
    unsigned integer or floating point. *)
Inductive dtype_kind := KBool | KInt | KUInt | KFloat.

(** A NumPy dtype as far as the creation routines look at it: they compare
    dtypes for identity and read [itemsize]; [kind] decides how a value is
    converted when it is stored in an array of the dtype. *)
Record np_dtype := Dtype { dtype_name : string; itemsize : Z; kind : dtype_kind }.

(** A Python scalar: an integer literal or a float literal (written as a
    ratio). *)
Inductive scalar :=
  | PyInt (z : Z)
  | PyFloat (num : Z) (den : positive).

(** What a caller may pass as a fill value: a scalar, or a [cupy.ndarray]
    holding one element (an array-like scalar container), of which the
    creation routines look at the dtype and [fill] at the element. *)
Inductive pyvalue :=
  | PyScalar (v : scalar)
  | PyArray (dt : np_dtype) (v : scalar).

Definition item (value : pyvalue) : scalar :=
  match value with PyScalar v => v | PyArray _ v => v end.

(** The integer a value is cut down to when it is stored as an integer:
    the fraction is dropped, towards zero. *)
Definition scalar_trunc (v : scalar) : Z :=
  match v with
  | PyInt z => z
  | PyFloat num den => Z.quot num (Z.pos den)
  end.

Definition scalar_is_zero (v : scalar) : bool :=
  match v with
  | PyInt z => z =? 0
  | PyFloat num _ => num =? 0
  end.

(** Bits of precision of the binary floating-point format of the given
    size in bytes (half, single, double). *)
Definition float_precision (isz : Z) : Z :=
  if isz =? 2 then 11 else if isz =? 4 then 24 else if isz =? 8 then 53 else 0.

(** Modelled from the spec: the conversion of a value to an element of a
    dtype, which cupy core performs on every store ([fill], item
    assignment).  A boolean element is 1 for a non-zero value and 0 for
    zero.  An integer element is the value with its fraction dropped,
    when that fits the width of the dtype.  A floating-point element is
    the value itself when the format holds it exactly.  Everything else
    (an integer out of range, a value the format has to round) is left
    undetermined: [None]. *)
Definition astype (dt : np_dtype) (v : scalar) : option scalar :=
  match kind dt with
  | KBool => Some (PyInt (if scalar_is_zero v then 0 else 1))
  | KInt =>
      let z := scalar_trunc v in
      if (- 2 ^ (8 * itemsize dt - 1) <=? z) && (z <? 2 ^ (8 * itemsize dt - 1))
      then Some (PyInt z) else None
  | KUInt =>
      let z := scalar_trunc v in
      if (0 <=? z) && (z <? 2 ^ (8 * itemsize dt))
      then Some (PyInt z) else None
  | KFloat =>
      let p := float_precision (itemsize dt) in
      match v with
      | PyInt z => if Z.abs z <=? 2 ^ p then Some (PyInt z) else None
      | PyFloat num den =>
          if (Z.abs num <=? 2 ^ p) && (2 ^ p mod Z.pos den =? 0)
          then Some (PyFloat num den) else None
      end
  end.

Inductive exn :=
  | TypeError (msg : string)
  | ValueError (msg : string)
  | IndexError.

Inductive result (A : Type) :=
  | Ok (a : A)
  | Raise (e : exn).
Arguments Ok {A} a.
Arguments Raise {A} e.

(** A device buffer maps the byte offset at which an element starts to the
    element stored there; [None] is memory whose content is not
    determined (nobody has written it yet, or the stored value is). *)
Abbreviation buffer := (Z → option scalar).

(** The device heap: buffer number [i] is the [i]-th allocation. *)
Abbreviation device := (list buffer).

(** [cupy.cuda.MemoryPointer]: the buffer it points into, the size in bytes
    that was requested for that buffer, and the byte offset inside it. *)
Record MemoryPointer := { mem : nat; mem_size : Z; ptr : Z }.

(** ** The creation monad: device state and exceptions *)

Definition Cu (A : Type) : Type := device → result (A * device).

Definition ret {A} (a : A) : Cu A := λ dev, Ok (a, dev).

Definition raise {A} (e : exn) : Cu A := λ _, Raise e.

Definition bind {A B} (c : Cu A) (k : A → Cu B) : Cu B :=
  λ dev, match c dev with
         | Ok (a, dev') => k a dev'
         | Raise e => Raise e
         end.

Definition lift {A} (r : result A) : Cu A :=
  λ dev, match r with Ok a => Ok (a, dev) | Raise e => Raise e end.

Notation "x <- c1 ;; c2" := (bind c1 (λ x, c2))
  (at level 100, c1 at next level, right associativity).
Notation "c1 ;;; c2" := (bind c1 (λ _, c2))
  (at level 100, right associativity).

(** ** The array object *)

Record Flags := { c_contiguous : bool; f_contiguous : bool }.

Record ndarray := {
  shape : list Z;
  dtype : np_dtype;
  strides : list Z;
  data : MemoryPointer;
  flags : Flags
}.

Definition ndim (a : ndarray) : nat := length (shape a).

Definition prod_list (l : list Z) : Z := foldr Z.mul 1 l.

Definition size (a : ndarray) : Z := prod_list (shape a).

Definition nbytes (a : ndarray) : Z := size a * itemsize (dtype a).

(** Canonical strides.  [f_strides_from shape st] gives the first axis the
    stride [st] and every later axis the stride of its predecessor times
    the predecessor's extent; row-major strides are the mirror image. *)
Fixpoint f_strides_from (shape : list Z) (st : Z) : list Z :=
  match shape with
  | [] => []
  | n :: rest => st :: f_strides_from rest (st * n)
  end.

Definition f_strides (shape : list Z) (isz : Z) : list Z :=
  f_strides_from shape isz.

Definition c_strides (shape : list Z) (isz : Z) : list Z :=
  reverse (f_strides_from (reverse shape) isz).

(** [relaxed_eqb shp st e]: walking the axes from the fastest one, whose
    stride should be [e], every axis of extent other than 1 has the stride
    of a gapless layout; the stride of an axis of extent 1 is never used
    and is not looked at. *)
Fixpoint relaxed_eqb (shp st : list Z) (e : Z) : bool :=
  match shp, st with
  | [], [] => true
  | n :: shp', s :: st' => ((n =? 1) || (s =? e)) && relaxed_eqb shp' st' (e * n)
  | _, _ => false
  end.

Definition has_zero (shp : list Z) : bool := existsb (Z.eqb 0) shp.

(** Modelled from the spec: the contiguity flags of [cupy.ndarray] (cupy
    core, not in this module), under the standard definition.  Row-major
    contiguous means that the strides are the element size times the
    trailing-dimension products, with no gaps, on every axis whose extent
    is not 1; column-major contiguous is the mirror image, leading
    dimension fastest.  An array without elements is contiguous in both
    orders. *)
Definition contiguity (shape strides : list Z) (isz : Z) : Flags :=
  {| c_contiguous :=
       has_zero shape || relaxed_eqb (reverse shape) (reverse strides) isz;
     f_contiguous := has_zero shape || relaxed_eqb shape strides isz |}.

(** Modelled from the spec: the device allocator (cupy core).  A request
    for [n] bytes yields a pointer to the start of a fresh buffer. *)
Definition alloc (n : Z) : Cu MemoryPointer :=
  λ dev, Ok ({| mem := length dev; mem_size := n; ptr := 0 |},
             dev ++ [λ _, None]).

(** Modelled from the spec: the constructor [cupy.ndarray(shape, dtype,
    memptr, strides, order)] (cupy core).  It accepts either a canonical
    order tag, from which it computes the canonical strides itself, or an
    explicit stride sequence; without a caller-supplied buffer it
    allocates [size * itemsize] bytes. *)
Definition cupy_ndarray (shp : list Z) (dt : np_dtype)
    (memptr : option MemoryPointer) (strd : option (list Z))
    (order : string) : Cu ndarray :=
  st <- match strd with
        | Some st => ret st
        | None =>
            if String.eqb order "C" then ret (c_strides shp (itemsize dt))
            else if String.eqb order "F" then ret (f_strides shp (itemsize dt))
            else raise (TypeError ("order not understood. order=" ++ order))
        end ;;
  m <- match memptr with
       | Some m => ret m
       | None => alloc (prod_list shp * itemsize dt)
       end ;;
  ret {| shape := shp; dtype := dt; strides := st; data := m;
         flags := contiguity shp st (itemsize dt) |}.

(** ** Reading and writing elements *)

Definition offset_of (strd idx : list Z) : Z :=
  foldr Z.add 0 (zip_with Z.mul idx strd).

Definition address (a : ndarray) (idx : list Z) : Z :=
  ptr (data a) + offset_of (strides a) idx.

(** [a[idx]] for a full index tuple. *)
Definition getitem (dev : device) (a : ndarray) (idx : list Z) : option scalar :=
  dev !! mem (data a) ≫= λ b, b (address a idx).

Definition poke (off : Z) (v : option scalar) (b : buffer) : buffer :=
  λ o, if o =? off then v else b o.

Definition store (p : nat) (off : Z) (v : option scalar) (dev : device)
    : device :=
  alter (poke off v) p dev.

(** All index tuples of an array of the given shape, last axis fastest. *)
Fixpoint ndindex (shp : list Z) : list (list Z) :=
  match shp with
  | [] => [[]]
  | n :: rest => i ← seqZ 0 n; (λ idx, i :: idx) <$> ndindex rest
  end.

(** Modelled from the spec: [ndarray.fill(value)] (cupy core)
    broadcast-assigns one value, converted to the dtype of the array, to
    every element, in place. *)
Definition fill (a : ndarray) (value : pyvalue) : Cu unit :=
  λ dev, Ok (tt, foldl (λ d idx, store (mem (data a)) (address a idx)
                                       (astype (dtype a) (item value)) d)
                       dev (ndindex (shape a))).

(** Modelled from the spec: [MemoryPointer.memset_async(value, size)] (cupy
    core) sets [size] bytes from the pointer on.  Only zero-fill is given
    a meaning: an element all of whose bytes are zero reads as 0; any
    other byte pattern leaves the elements unknown. *)
Definition memset_async (p : MemoryPointer) (value n : Z) : Cu unit :=
  λ dev, Ok (tt, alter (λ b o, if (ptr p <=? o) && (o <? ptr p + n)
                               then (if value =? 0 then Some (PyInt 0) else None)
                               else b o) (mem p) dev).

(** Modelled from the spec: [ndarray.diagonal(k)] of a 2-D array (cupy
    core) is a view of the k-th diagonal (0 main, positive above, negative
    below) onto the same buffer; its length is [min(N, M - k)] for
    [k >= 0] and [min(N + k, M)] for [k < 0], and no element at all when
    that is not positive. *)
Definition diagonal_length (N Mc k : Z) : Z :=
  if 0 <=? k then Z.min N (Mc - k) else Z.min (N + k) Mc.

Definition diagonal (a : ndarray) (k : Z) : Cu ndarray :=
  match shape a, strides a with
  | [N; Mc], [s0; s1] =>
      let shp := [Z.max 0 (diagonal_length N Mc k)] in
      let st := [s0 + s1] in
      let start := if 0 <=? k then k * s1 else (- k) * s0 in
      ret {| shape := shp; dtype := dtype a; strides := st;
             data := {| mem := mem (data a); mem_size := mem_size (data a);
                        ptr := ptr (data a) + start |};
             flags := contiguity shp st (itemsize (dtype a)) |}
  | _, _ => raise (ValueError "diagonal requires a 2-d array")
  end.

(** [view[:] = value] writes every element of the view. *)
Definition setitem_all (view : ndarray) (value : pyvalue) : Cu unit :=
  fill view value.

(** ** cupy/creation/basic.py *)

Definition empty (shp : list Z) (dt : np_dtype) (order : string) : Cu ndarray :=
  cupy_ndarray shp dt None None order.

(** [numpy.sort(tmp, order=['strides', 'axes'])]: ascending in the
    ['strides'] field, ties decided by the ['axes'] field. *)
Definition record_le (x y : Z * nat) : bool :=
  (x.1 <? y.1) || ((x.1 =? y.1) && (x.2 <=? y.2)%nat).

Fixpoint insert_by (le : Z * nat → Z * nat → bool) (x : Z * nat)
    (l : list (Z * nat)) : list (Z * nat) :=
  match l with
  | [] => [x]
  | y :: l' => if le x y then x :: l else y :: insert_by le x l'
  end.

Definition sort_by (le : Z * nat → Z * nat → bool) (l : list (Z * nat))
    : list (Z * nat) :=
  foldr (insert_by le) [] l.

Definition numpy_sort (l : list (Z * nat)) : list (Z * nat) :=
  sort_by record_le l.

(** Lines 49-55: the axes in the order of the sorted (stride, axis)
    records, read back to front. *)
Definition sorted_stride_perm (a : ndarray) : list nat :=
  let tmp := zip (strides a) (seq 0 (ndim a)) in
  let tmp_sorted := reverse (numpy_sort tmp) in
  tmp_sorted.*2.

(** Lines 61-64: the loop over [idim], with [perm[idim]],
    [strides[i_perm] = ...] and [a.shape[i_perm]] raising [IndexError]
    out of range.  The strides are kept as unbounded integers: the
    [OverflowError] of a store that does not fit [numpy.intp], which
    takes a result of 2^63 bytes or more, is not part of the model. *)
Fixpoint fill_strides (shp : list Z) (perm idims : list nat)
    (stride : Z) (strd : list Z) : result (list Z) :=
  match idims with
  | [] => Ok strd
  | idim :: rest =>
      match perm !! idim with
      | None => Raise IndexError
      | Some i_perm =>
          if (i_perm <? length strd)%nat then
            match shp !! i_perm with
            | None => Raise IndexError
            | Some n =>
                fill_strides shp perm rest (stride * n) (<[i_perm := stride]> strd)
            end
          else Raise IndexError
      end
  end.

Definition _new_like_order_and_strides (a : ndarray) (dt : np_dtype)
    (order : string) : Cu (string * option (list Z) * option MemoryPointer) :=
  let order :=
    if String.eqb order "A" then
      if f_contiguous (flags a) then "F" else "C"
    else if String.eqb order "K" then
      if c_contiguous (flags a) || (ndim a <=? 1)%nat then "C"
      else if f_contiguous (flags a) then "F"
      else order
    else order in
  if String.eqb order "C" || String.eqb order "F" then
    ret (order, None, None)
  else if String.eqb order "K" then
    let perm := sorted_stride_perm a in
    let order := "C" in
    let stride := itemsize dt in
    let strd := replicate (ndim a) 0 in
    strd <- lift (fill_strides (shape a) perm (reverse (seq 0 (ndim a)))
                               stride strd) ;;
    buf <- empty [size a] dt "C" ;;
    ret (order, Some strd, Some (data buf))
  else raise (TypeError ("order not understood: " ++ order)).

Definition empty_like (a : ndarray) (dt : option np_dtype) (order : string)
    : Cu ndarray :=
  let dt := match dt with None => dtype a | Some d => d end in
  r <- _new_like_order_and_strides a dt order ;;
  let '(order, strd, memptr) := r in
  cupy_ndarray (shape a) dt memptr strd order.

Definition zeros (shp : list Z) (dt : np_dtype) (order : string) : Cu ndarray :=
  a <- cupy_ndarray shp dt None None order ;;
  memset_async (data a) 0 (nbytes a) ;;;
  ret a.

Definition eye (N : Z) (M : option Z) (k : Z) (dt : np_dtype) : Cu ndarray :=
  let M := match M with None => N | Some m => m end in
  r <- zeros [N; M] dt "C" ;;
  d <- diagonal r k ;;
  setitem_all d (PyScalar (PyInt 1)) ;;;
  ret r.

Definition identity (n : Z) (dt : np_dtype) : Cu ndarray :=
  eye n None 0 dt.

Definition ones (shp : list Z) (dt : np_dtype) : Cu ndarray :=
  a <- cupy_ndarray shp dt None None "C" ;;
  fill a (PyScalar (PyInt 1)) ;;;
  ret a.

Definition ones_like (a : ndarray) (dt : option np_dtype) (order : string)
    : Cu ndarray :=
  let dt := match dt with None => dtype a | Some d => d end in
  r <- _new_like_order_and_strides a dt order ;;
  let '(order, strd, memptr) := r in
  a <- cupy_ndarray (shape a) dt memptr strd order ;;
  fill a (PyScalar (PyInt 1)) ;;;
  ret a.

Definition zeros_like (a : ndarray) (dt : option np_dtype) (order : string)
    : Cu ndarray :=
  let dt := match dt with None => dtype a | Some d => d end in
  r <- _new_like_order_and_strides a dt order ;;
  let '(order, strd, memptr) := r in
  a <- cupy_ndarray (shape a) dt memptr strd order ;;
  memset_async (data a) 0 (nbytes a) ;;;
  ret a.

Section TypeInference.
(** [numpy.array(value).dtype]: the dtype NumPy's scalar wrapping gives a
    value. *)
Variable numpy_array_dtype : scalar → np_dtype.

Definition full (shp : list Z) (fill_value : pyvalue) (dt : option np_dtype)
    : Cu ndarray :=
  let dt :=
    match dt with
    | None =>
        match fill_value with
        | PyArray d _ => d
        | PyScalar v => numpy_array_dtype v
        end
    | Some d => d
    end in
  a <- cupy_ndarray shp dt None None "C" ;;
  fill a fill_value ;;;
  ret a.
End TypeInference.

Definition full_like (a : ndarray) (fill_value : pyvalue) (dt : option np_dtype)
    (order : string) : Cu ndarray :=
  let dt := match dt with None => dtype a | Some d => d end in
  r <- _new_like_order_and_strides a dt order ;;
  let '(order, strd, memptr) := r in
  a <- cupy_ndarray (shape a) dt memptr strd order ;;
  fill a fill_value ;;;
  ret a.

(** A source array as the allocator would hand it out for the given shape,
    strides and dtype, at the start of buffer [p]. *)
Definition array_of (shp strd : list Z) (dt : np_dtype) (p : nat) : ndarray :=
  {| shape := shp; dtype := dt; strides := strd;
     data := {| mem := p; mem_size := prod_list shp * itemsize dt; ptr := 0 |};
     flags := contiguity shp strd (itemsize dt) |}.

Definition float32 : np_dtype := Dtype "float32" 4 KFloat.
Definition int64 : np_dtype := Dtype "int64" 8 KInt.


(** ** Vocabulary of the statements *)

(** An array object is well formed when it has one stride per axis. *)
Definition wf (a : ndarray) : Prop := length (strides a) = length (shape a).

(** The extents of the axes listed in [axes], in that order. *)
Definition take_axes (shp : list Z) (axes : list nat) : list Z :=
  omap (λ ax, shp !! ax) axes.

Definition rec_le (x y : Z * nat) : Prop := record_le x y = true.

(** The mode strings the resolver understands. *)
Definition layout_modes : list string := ["C"; "F"; "A"; "K"].

(** What a call of the resolver decides, apart from the identity of the
    buffer it may have allocated: the order, the explicit strides and the
    number of bytes requested, or the exception. *)
Definition layout_decision
    (r : result (string * option (list Z) * option MemoryPointer * device))
    : result (string * option (list Z) * option Z) :=
  match r with
  | Ok (o, strd, memptr, _) => Ok (o, strd, mem_size <$> memptr)
  | Raise e => Raise e
  end.

(** The spec's words for the sort of the closest-match branch: keyed by
    (descending stride, ascending original axis index). *)
Definition spec_record_le (x y : Z * nat) : bool :=
  (y.1 <? x.1) || ((x.1 =? y.1) && (x.2 <=? y.2)%nat).

Definition spec_stride_perm (a : ndarray) : list nat :=
  (sort_by spec_record_le (zip (strides a) (seq 0 (ndim a)))).*2.

(** A full index tuple that lies inside the given shape. *)
Definition valid_index (shp idx : list Z) : Prop :=
  Forall2 (λ i n, 0 ≤ i < n) idx shp.

(** The sources used as examples, each at the start of buffer 0 of a device
    whose only allocation is that buffer: a scalar broadcast to shape
    (2, 3); the permuted-strides source of shape (2, 3, 4); a contiguous
    vector; and row-major and column-major matrices. *)
Definition source_device : device := [λ _, None].
Definition broadcast_source : ndarray := array_of [2; 3] [0; 0] float32 0.
Definition permuted_source : ndarray := array_of [2; 3; 4] [4; 48; 16] float32 0.
Definition vector_source : ndarray := array_of [3] [4] float32 0.
Definition c_source : ndarray := array_of [2; 3] [12; 4] float32 0.
Definition f_source : ndarray := array_of [2; 3] [4; 8] float32 0.

(** The strides [st] lay the shape out densely in the axis order [perm]:
    [perm] lists every axis once, and the axis at position [t] of [perm]
    has the row-major stride of position [t] of the shape transposed into
    that order.  Row-major order is the case [perm = 0, 1, ..], and
    column-major order the case [perm = .., 1, 0]. *)
Definition permuted_row_major (shp st : list Z) (isz : Z) (perm : list nat)
    : Prop :=
  perm ≡ₚ seq 0 (length shp) ∧
  length st = length shp ∧
  ∀ t ax, perm !! t = Some ax →
          st !! ax = c_strides (take_axes shp perm) isz !! t.

(** ** The sort and the permutation it yields *)

Lemma insert_by_perm le x l : insert_by le x l ≡ₚ x :: l.
Proof.
  induction l as [|y l IH]; simpl; [done|].
  destruct (le x y); [done|].
  rewrite IH. apply Permutation_swap.
Qed.

Lemma sort_by_perm le l : sort_by le l ≡ₚ l.
Proof.
  induction l as [|x l IH]; simpl; [done|].
  unfold sort_by in *. simpl. by rewrite insert_by_perm, IH.
Qed.

Lemma numpy_sort_perm l : numpy_sort l ≡ₚ l.
Proof. apply sort_by_perm. Qed.

Lemma sorted_stride_perm_perm a :
  wf a → sorted_stride_perm a ≡ₚ seq 0 (ndim a).
Proof.
  intros Hwf. unfold sorted_stride_perm.
  rewrite reverse_Permutation, numpy_sort_perm.
  rewrite snd_zip; [done|].
  rewrite length_seq. unfold ndim, wf in *. lia.
Qed.

Lemma sorted_stride_perm_length a :
  wf a → length (sorted_stride_perm a) = ndim a.
Proof.
  intros Hwf. rewrite (Permutation_length (sorted_stride_perm_perm a Hwf)).
  apply length_seq.
Qed.

Lemma sorted_stride_perm_lt a ax :
  wf a → ax ∈ sorted_stride_perm a → (ax < ndim a)%nat.
Proof.
  intros Hwf Hin. rewrite (sorted_stride_perm_perm a Hwf) in Hin.
  apply elem_of_seq in Hin. lia.
Qed.

Lemma sorted_stride_perm_NoDup a : wf a → NoDup (sorted_stride_perm a).
Proof.
  intros Hwf. rewrite (sorted_stride_perm_perm a Hwf). apply NoDup_seq.
Qed.

(** ** The stride-filling loop *)

Lemma take_axes_Forall2 shp axes :
  Forall (λ ax, ax < length shp)%nat axes →
  Forall2 (λ ax n, shp !! ax = Some n) axes (take_axes shp axes).
Proof.
  induction 1 as [|ax axes Hlt _ IH]; simpl; [constructor|].
  destruct (lookup_lt_is_Some_2 shp ax Hlt) as [n Hn].
  unfold take_axes in *. simpl. rewrite Hn. simpl. by constructor.
Qed.

Lemma take_axes_reverse shp axes :
  take_axes shp (reverse axes) = reverse (take_axes shp axes).
Proof.
  unfold take_axes. induction axes as [|ax axes IH]; simpl; [done|].
  rewrite reverse_cons, omap_app, IH. simpl.
  destruct (shp !! ax); simpl; by rewrite ?reverse_cons, ?app_nil_r.
Qed.

Lemma lookup_seq_self {A} (l : list A) :
  Forall2 (λ i x, l !! i = Some x) (seq 0 (length l)) l.
Proof.
  apply Forall2_same_length_lookup_2; [by rewrite length_seq|].
  intros i j x Hj Hx. apply lookup_seq in Hj as [-> _]. done.
Qed.

Lemma fill_strides_spec shp perm idims axes :
  Forall2 (λ idim ax, perm !! idim = Some ax) idims axes →
  ∀ dims stride strd,
    Forall2 (λ ax n, shp !! ax = Some n) axes dims →
    Forall (λ ax, ax < length strd)%nat axes →
    NoDup axes →
    ∃ strd',
      fill_strides shp perm idims stride strd = Ok strd' ∧
      length strd' = length strd ∧
      (∀ p ax, axes !! p = Some ax →
               strd' !! ax = f_strides_from dims stride !! p) ∧
      (∀ ax, ax ∉ axes → strd' !! ax = strd !! ax).
Proof.
  induction 1 as [|idim ax idims axes Hidim _ IH];
    intros dims stride strd Hdims Hlt Hnd.
  - exists strd. simpl. split_and!; [done..| |done].
    intros p ax Hp. by rewrite lookup_nil in Hp.
  - inversion Hdims as [|? n ? dims' Hn Hdims']; subst.
    apply Forall_cons in Hlt as [Hax Hlt].
    apply NoDup_cons in Hnd as [Hnotin Hnd].
    simpl. rewrite Hidim.
    apply Nat.ltb_lt in Hax as Haxb. rewrite Haxb, Hn.
    destruct (IH dims' (stride * n) (<[ax:=stride]> strd) Hdims')
      as (strd' & Hrun & Hlen & Hin & Hout); [|done|].
    { eapply Forall_impl; [exact Hlt|]. intros x Hx. simpl.
      by rewrite length_insert. }
    exists strd'. split_and!; [done| |..].
    + by rewrite Hlen, length_insert.
    + intros [|p] ax' Hp; simpl in *.
      * injection Hp as <-. rewrite (Hout ax Hnotin).
        by apply list_lookup_insert_eq.
      * by apply Hin.
    + intros ax' Hnot. apply not_elem_of_cons in Hnot as [Hne Hnot].
      rewrite (Hout ax' Hnot). by apply list_lookup_insert_ne.
Qed.

(** The loop of the closest-match branch, run on a well-formed source: it
    succeeds, and the axis at sorted position [t] gets the row-major
    stride of position [t] of the shape transposed into sorted order. *)
Lemma closest_match_loop a isz :
  wf a →
  ∃ strd,
    fill_strides (shape a) (sorted_stride_perm a) (reverse (seq 0 (ndim a)))
                 isz (replicate (ndim a) 0) = Ok strd ∧
    length strd = ndim a ∧
    ∀ t ax, sorted_stride_perm a !! t = Some ax →
            strd !! ax
            = c_strides (take_axes (shape a) (sorted_stride_perm a)) isz !! t.
Proof.
  intros Hwf.
  set (perm := sorted_stride_perm a).
  assert (Hlen : length perm = ndim a) by by apply sorted_stride_perm_length.
  assert (Hall : Forall (λ ax, ax < length (shape a))%nat perm).
  { apply Forall_forall. intros ax Hax.
    by apply sorted_stride_perm_lt. }
  destruct (fill_strides_spec (shape a) perm (reverse (seq 0 (ndim a)))
              (reverse perm)) with
      (dims := take_axes (shape a) (reverse perm)) (stride := isz)
      (strd := replicate (ndim a) 0)
    as (strd & Hrun & Hl & Hin & _).
  - apply Forall2_reverse. rewrite <- Hlen. apply lookup_seq_self.
  - apply take_axes_Forall2. by apply Forall_reverse.
  - apply Forall_reverse. rewrite length_replicate. exact Hall.
  - rewrite reverse_Permutation. by apply sorted_stride_perm_NoDup.
  - exists strd. split_and!; [done|by rewrite Hl, length_replicate|].
    intros t ax Ht.
    assert (Htlt : (t < length perm)%nat) by by eapply lookup_lt_Some.
    assert (Hdl : length (take_axes (shape a) perm) = length perm).
    { symmetry. eapply Forall2_length, take_axes_Forall2, Hall. }
    rewrite (Hin (length perm - S t)%nat ax).
    + unfold c_strides. rewrite take_axes_reverse.
      assert (Hfl : ∀ d s, length (f_strides_from d s) = length d).
      { induction d; simpl; intros; [done|]. by f_equal. }
      rewrite reverse_lookup; rewrite Hfl, length_reverse, Hdl; [done|lia].
    + rewrite reverse_lookup by lia.
      replace (length perm - S (length perm - S t))%nat with t by lia. done.
Qed.

(** ** The order of the sorted records *)

Lemma rec_le_spec x y :
  rec_le x y ↔ x.1 < y.1 ∨ (x.1 = y.1 ∧ (x.2 ≤ y.2)%nat).
Proof.
  unfold rec_le, record_le.
  rewrite orb_true_iff, andb_true_iff, Z.ltb_lt, Z.eqb_eq, Nat.leb_le. done.
Qed.

Lemma rec_le_trans x y z : rec_le x y → rec_le y z → rec_le x z.
Proof. rewrite !rec_le_spec. lia. Qed.

Lemma rec_le_total x y : rec_le x y ∨ rec_le y x.
Proof. rewrite !rec_le_spec. lia. Qed.

Lemma insert_by_sorted x l :
  StronglySorted rec_le l → StronglySorted rec_le (insert_by record_le x l).
Proof.
  induction 1 as [|y l Hl IH Hy]; simpl.
  - repeat constructor.
  - destruct (record_le x y) eqn:Hxy.
    + constructor; [by constructor|].
      constructor; [done|].
      eapply Forall_impl; [exact Hy|]. intros z Hz.
      by apply rec_le_trans with y.
    + constructor; [done|].
      rewrite insert_by_perm. constructor; [|done].
      destruct (rec_le_total x y) as [H|H]; [|done].
      unfold rec_le in H. congruence.
Qed.

Lemma numpy_sort_sorted l : StronglySorted rec_le (numpy_sort l).
Proof.
  induction l as [|x l IH]; [constructor|].
  by apply insert_by_sorted.
Qed.

Lemma rec_le_antisym x y : rec_le x y → rec_le y x → x = y.
Proof.
  rewrite !rec_le_spec. destruct x as [s i], y as [s' i']. simpl.
  intros H1 H2. f_equal; lia.
Qed.

(** The records have exactly one ascending arrangement, so the result of
    [numpy.sort] does not depend on the sorting algorithm NumPy runs. *)
Lemma numpy_sort_unique l l' :
  l' ≡ₚ l → StronglySorted rec_le l' → l' = numpy_sort l.
Proof.
  intros Hperm Hsorted.
  apply (StronglySorted_unique_strong rec_le); [|done|apply numpy_sort_sorted|].
  - intros x y _ _. apply rec_le_antisym.
  - by rewrite numpy_sort_perm.
Qed.

Lemma StronglySorted_lookup {A} (R : relation A) l i j x y :
  StronglySorted R l → (i < j)%nat →
  l !! i = Some x → l !! j = Some y → R x y.
Proof.
  intros Hs. revert i j. induction Hs as [|z l Hl IH Hz]; intros i j Hij Hi Hj.
  - by rewrite lookup_nil in Hi.
  - destruct j as [|j]; [lia|]. simpl in Hj.
    destruct i as [|i]; simpl in Hi.
    + injection Hi as ->. rewrite Forall_forall in Hz.
      apply Hz. by eapply list_elem_of_lookup_2.
    + apply (IH i j); [lia|done..].
Qed.

(** In the permutation the code computes the strides never increase, and
    of two axes with equal strides the one with the LARGER index comes
    first: reversing the ascending sort reverses the tie-break too. *)
Lemma sorted_stride_perm_order a p q i j :
  wf a → (p < q)%nat →
  sorted_stride_perm a !! p = Some i →
  sorted_stride_perm a !! q = Some j →
  ∃ si sj, strides a !! i = Some si ∧ strides a !! j = Some sj ∧
           (sj < si ∨ (sj = si ∧ (j < i)%nat)).
Proof.
  intros Hwf Hpq Hp Hq.
  assert (Hne : i ≠ j).
  { intros ->. pose proof (NoDup_lookup _ _ _ _ (sorted_stride_perm_NoDup a Hwf) Hp Hq).
    lia. }
  unfold sorted_stride_perm in Hp, Hq.
  rewrite list_lookup_fmap in Hp, Hq.
  destruct (reverse _ !! p) as [[si i']|] eqn:Ep; simpl in Hp; [|done].
  destruct (reverse _ !! q) as [[sj j']|] eqn:Eq; simpl in Hq; [|done].
  injection Hp as ->. injection Hq as ->.
  set (tmp := zip (strides a) (seq 0 (ndim a))) in *.
  assert (Hmem : ∀ s ax, (s, ax) ∈ reverse (numpy_sort tmp) →
                         strides a !! ax = Some s).
  { intros s ax Hin. rewrite reverse_Permutation, numpy_sort_perm in Hin.
    apply elem_of_lookup_zip_with_1 in Hin as (n & x & y & Heq & Hx & Hy).
    injection Heq as -> ->. apply lookup_seq in Hy as [-> _]. done. }
  exists si, sj. split_and!.
  - eapply Hmem, list_elem_of_lookup_2, Ep.
  - eapply Hmem, list_elem_of_lookup_2, Eq.
  - assert (Hlen : (q < length (numpy_sort tmp))%nat).
    { apply lookup_lt_Some in Eq. by rewrite length_reverse in Eq. }
    rewrite reverse_lookup in Ep by lia.
    rewrite reverse_lookup in Eq by lia.
    assert (Hidx : (length (numpy_sort tmp) - S q
                    < length (numpy_sort tmp) - S p)%nat) by lia.
    pose proof (StronglySorted_lookup rec_le _ _ _ _ _
                  (numpy_sort_sorted tmp) Hidx Eq Ep) as Hle.
    apply rec_le_spec in Hle. simpl in Hle. lia.
Qed.

(** ** The branches of the resolver *)

Lemma resolver_A a dt dev :
  _new_like_order_and_strides a dt "A" dev
  = Ok ((if f_contiguous (flags a) then "F" else "C", None, None), dev).
Proof.
  unfold _new_like_order_and_strides. simpl.
  by destruct (f_contiguous (flags a)).
Qed.

Lemma resolver_K_row_major a dt dev :
  c_contiguous (flags a) = true ∨ (ndim a ≤ 1)%nat →
  _new_like_order_and_strides a dt "K" dev = Ok (("C", None, None), dev).
Proof.
  intros H. unfold _new_like_order_and_strides. simpl.
  assert (c_contiguous (flags a) || (ndim a <=? 1)%nat = true) as ->; [|done].
  apply orb_true_iff. destruct H as [H|H]; [by left|right].
  by apply Nat.leb_le.
Qed.

Lemma resolver_K_col_major a dt dev :
  c_contiguous (flags a) = false → (2 ≤ ndim a)%nat →
  f_contiguous (flags a) = true →
  _new_like_order_and_strides a dt "K" dev = Ok (("F", None, None), dev).
Proof.
  intros Hc Hn Hf. unfold _new_like_order_and_strides. simpl.
  rewrite Hc, Hf. simpl.
  assert ((ndim a <=? 1)%nat = false) as ->; [|done].
  apply Nat.leb_gt. lia.
Qed.

Lemma resolver_K_explicit a dt dev :
  wf a →
  c_contiguous (flags a) = false → (2 ≤ ndim a)%nat →
  f_contiguous (flags a) = false →
  ∃ strd,
    _new_like_order_and_strides a dt "K" dev
    = Ok (("C", Some strd,
           Some {| mem := length dev; mem_size := size a * itemsize dt;
                   ptr := 0 |}),
          dev ++ [λ _, None]) ∧
    length strd = ndim a ∧
    ∀ t ax, sorted_stride_perm a !! t = Some ax →
            strd !! ax
            = c_strides (take_axes (shape a) (sorted_stride_perm a))
                        (itemsize dt) !! t.
Proof.
  intros Hwf Hc Hn Hf.
  destruct (closest_match_loop a (itemsize dt) Hwf) as (strd & Hrun & Hlen & Hspec).
  exists strd. split_and!; [|done..].
  unfold _new_like_order_and_strides. simpl.
  rewrite Hc, Hf. simpl.
  assert ((ndim a <=? 1)%nat = false) as -> by (apply Nat.leb_gt; lia).
  simpl. unfold bind, lift. rewrite Hrun.
  unfold empty, cupy_ndarray, bind, ret, alloc. simpl.
  by rewrite Z.mul_1_r.
Qed.

Lemma resolver_other a dt order dev :
  order ≠ "C" → order ≠ "F" → order ≠ "A" → order ≠ "K" →
  _new_like_order_and_strides a dt order dev
  = Raise (TypeError ("order not understood: " ++ order)).
Proof.
  intros HC HF HA HK. unfold _new_like_order_and_strides.
  apply String.eqb_neq in HC, HF, HA, HK.
  by rewrite HA, HK, HC, HF, HK.
Qed.

(** ** The array constructor *)

Lemma cupy_ndarray_canonical shp dt o dev :
  o = "C" ∨ o = "F" →
  cupy_ndarray shp dt None None o dev
  = Ok ({| shape := shp; dtype := dt;
           strides := if String.eqb o "C" then c_strides shp (itemsize dt)
                      else f_strides shp (itemsize dt);
           data := {| mem := length dev;
                      mem_size := prod_list shp * itemsize dt; ptr := 0 |};
           flags := contiguity shp
                      (if String.eqb o "C" then c_strides shp (itemsize dt)
                       else f_strides shp (itemsize dt)) (itemsize dt) |},
        dev ++ [λ _, None]).
Proof. by intros [-> | ->]. Qed.

Lemma cupy_ndarray_explicit shp dt m st o dev :
  cupy_ndarray shp dt (Some m) (Some st) o dev
  = Ok ({| shape := shp; dtype := dt; strides := st; data := m;
           flags := contiguity shp st (itemsize dt) |}, dev).
Proof. done. Qed.

Lemma cupy_ndarray_dtype shp dt m st o dev r dev' :
  cupy_ndarray shp dt m st o dev = Ok (r, dev') →
  dtype r = dt ∧ shape r = shp.
Proof.
  unfold cupy_ndarray, bind, ret, raise, alloc.
  destruct st as [st|]; [|destruct (String.eqb o "C"); [|destruct (String.eqb o "F")]];
    destruct m as [m|]; intros [= <- <-] || intros [=]; done.
Qed.

(** ** The [_like] routines *)

Lemma resolver_C a dt dev :
  _new_like_order_and_strides a dt "C" dev = Ok (("C", None, None), dev).
Proof. done. Qed.

Lemma resolver_F a dt dev :
  _new_like_order_and_strides a dt "F" dev = Ok (("F", None, None), dev).
Proof. done. Qed.

(** For a well-formed source and a mode the resolver understands,
    [empty_like] returns an array of the source's shape whose strides do
    not depend on the state of the device. *)
Lemma empty_like_ok a dt order :
  wf a → order ∈ layout_modes →
  ∃ st, ∀ dev, ∃ m dev',
    empty_like a dt order dev
    = Ok ({| shape := shape a; dtype := default (dtype a) dt; strides := st;
             data := m;
             flags := contiguity (shape a) st
                        (itemsize (default (dtype a) dt)) |}, dev').
Proof.
  intros Hwf Hin. set (d := default (dtype a) dt).
  assert (Hcanon : ∀ o, o = "C" ∨ o = "F" →
            (∀ dev, _new_like_order_and_strides a d order dev
                    = Ok ((o, None, None), dev)) →
            ∃ st, ∀ dev, ∃ m dev',
              empty_like a dt order dev
              = Ok ({| shape := shape a; dtype := d; strides := st; data := m;
                       flags := contiguity (shape a) st (itemsize d) |}, dev')).
  { intros o Ho Hres. eexists. intros dev. eexists _, _.
    unfold empty_like, bind.
    change (match dt with Some d0 => d0 | None => dtype a end) with d.
    rewrite Hres.
    by rewrite (cupy_ndarray_canonical _ _ _ _ Ho). }
  unfold layout_modes in Hin. rewrite !elem_of_cons, elem_of_nil in Hin.
  destruct Hin as [->|[->|[->|[->|[]]]]].
  - apply (Hcanon "C"); [by left|]. apply resolver_C.
  - apply (Hcanon "F"); [by right|]. apply resolver_F.
  - destruct (f_contiguous (flags a)) eqn:Hf.
    + apply (Hcanon "F"); [by right|]. intros dev.
      by rewrite resolver_A, Hf.
    + apply (Hcanon "C"); [by left|]. intros dev.
      by rewrite resolver_A, Hf.
  - destruct (c_contiguous (flags a)) eqn:Hc.
    { apply (Hcanon "C"); [by left|]. intros dev.
      apply resolver_K_row_major. by left. }
    destruct (decide (ndim a ≤ 1)%nat) as [Hn|Hn].
    { apply (Hcanon "C"); [by left|]. intros dev.
      apply resolver_K_row_major. by right. }
    destruct (f_contiguous (flags a)) eqn:Hf.
    { apply (Hcanon "F"); [by right|]. intros dev.
      apply resolver_K_col_major; [done|lia|done]. }
    destruct (closest_match_loop a (itemsize d) Hwf) as (st & Hrun & _).
    exists st. intros dev. eexists _, _.
    destruct (resolver_K_explicit a d dev Hwf Hc ltac:(lia) Hf)
      as (st' & Hres & _).
    unfold empty_like, bind.
    change (match dt with Some d0 => d0 | None => dtype a end) with d.
    rewrite Hres.
    rewrite cupy_ndarray_explicit.
    assert (st' = st) as ->; [|done].
    revert Hres. unfold _new_like_order_and_strides. simpl.
    rewrite Hc, Hf. simpl.
    assert ((ndim a <=? 1)%nat = false) as -> by (apply Nat.leb_gt; lia).
    simpl. unfold bind, lift. rewrite Hrun. simpl. by intros [= <-].
Qed.

Lemma empty_like_dtype a dt order dev r dev' :
  empty_like a dt order dev = Ok (r, dev') →
  dtype r = default (dtype a) dt ∧ shape r = shape a.
Proof.
  unfold empty_like, bind.
  destruct (_new_like_order_and_strides _ _ _ _) as [[[[o st] m] d]|]; [|done].
  apply cupy_ndarray_dtype.
Qed.

Lemma ones_like_unfold a dt order dev :
  ones_like a dt order dev
  = (r <- empty_like a dt order ;; fill r (PyScalar (PyInt 1)) ;;; ret r) dev.
Proof.
  unfold ones_like, empty_like, bind.
  by destruct (_new_like_order_and_strides _ _ _ _) as [[[[o st] m] d]|].
Qed.

Lemma zeros_like_unfold a dt order dev :
  zeros_like a dt order dev
  = (r <- empty_like a dt order ;;
     memset_async (data r) 0 (nbytes r) ;;; ret r) dev.
Proof.
  unfold zeros_like, empty_like, bind.
  by destruct (_new_like_order_and_strides _ _ _ _) as [[[[o st] m] d]|].
Qed.

Lemma full_like_unfold a fill_value dt order dev :
  full_like a fill_value dt order dev
  = (r <- empty_like a dt order ;; fill r fill_value ;;; ret r) dev.
Proof.
  unfold full_like, empty_like, bind.
  by destruct (_new_like_order_and_strides _ _ _ _) as [[[[o st] m] d]|].
Qed.

(** ** Properties of the layout resolver *)

(** C1 (code defect).  The closest-match branch sorts the (stride, axis)
    records ascending and then reverses the result, which reverses the
    tie-break as well: on a scalar broadcast to shape (2, 3), whose two
    strides are both 0, the source reaches the explicit branch and the
    computed axis order is [1, 0], the larger index first, where a sort
    keyed by (descending stride, ascending axis) gives [0, 1]; the new
    array gets the strides (4, 8) instead of (12, 4). *)
Theorem closest_match_tie_break_reversed :
  flags broadcast_source = {| c_contiguous := false; f_contiguous := false |} ∧
  sorted_stride_perm broadcast_source = [1%nat; 0%nat] ∧
  spec_stride_perm broadcast_source = [0%nat; 1%nat] ∧
  (∀ dev,
     _new_like_order_and_strides broadcast_source float32 "K" dev
     = Ok (("C", Some [4; 8],
            Some {| mem := length dev; mem_size := 24; ptr := 0 |}),
           dev ++ [λ _, None])) ∧
  c_strides (take_axes (shape broadcast_source)
                       (spec_stride_perm broadcast_source)) 4 = [12; 4].
Proof. split_and!; reflexivity. Qed.

(** C2, as stated, fails: a contiguous vector (ndim = 1) is flagged
    column-major contiguous, and mode 'A' resolves it to 'F'. *)
Lemma as_is_vector_resolves_to_F :
  ¬ (∀ a dt dev, (ndim a ≤ 1)%nat →
       ∃ dev', _new_like_order_and_strides a dt "A" dev
               = Ok (("C", None, None), dev')).
Proof.
  intros H.
  destruct (H vector_source float32 source_device ltac:(vm_compute; lia))
    as [dev' Hres].
  vm_compute in Hres. discriminate Hres.
Qed.

(** C2 (amended).  For mode 'A' the resolver returns 'F' exactly when the
    source is flagged column-major contiguous and 'C' otherwise, with no
    explicit strides and no buffer, whatever the number of axes and
    whether or not the source is row-major contiguous too. *)
Theorem as_is_follows_f_contiguous a dt dev :
  _new_like_order_and_strides a dt "A" dev
  = Ok ((if f_contiguous (flags a) then "F" else "C", None, None), dev).
Proof. apply resolver_A. Qed.

(** C3.  For mode 'K' a source that is row-major contiguous or has at most
    one axis resolves to 'C', and a source with at least two axes that is
    column-major but not row-major contiguous resolves to 'F'; in both
    cases without explicit strides, without a buffer, and with the device
    left as it was. *)
Theorem closest_match_canonical a dt dev :
  (c_contiguous (flags a) = true ∨ (ndim a ≤ 1)%nat →
   _new_like_order_and_strides a dt "K" dev = Ok (("C", None, None), dev)) ∧
  ((2 ≤ ndim a)%nat → f_contiguous (flags a) = true →
   c_contiguous (flags a) = false →
   _new_like_order_and_strides a dt "K" dev = Ok (("F", None, None), dev)).
Proof.
  split.
  - apply resolver_K_row_major.
  - intros Hn Hf Hc. by apply resolver_K_col_major.
Qed.

Lemma closest_match_canonical_witness :
  _new_like_order_and_strides c_source float32 "K" source_device
  = Ok (("C", None, None), source_device) ∧
  _new_like_order_and_strides vector_source int64 "K" source_device
  = Ok (("C", None, None), source_device) ∧
  _new_like_order_and_strides f_source float32 "K" source_device
  = Ok (("F", None, None), source_device).
Proof.
  split_and!.
  - apply (proj1 (closest_match_canonical c_source float32 source_device)).
    left. reflexivity.
  - apply (proj1 (closest_match_canonical vector_source int64 source_device)).
    right. vm_compute. lia.
  - apply (proj2 (closest_match_canonical f_source float32 source_device));
      [vm_compute; lia|reflexivity..].
Defined.

(** C4.  A source of shape (2, 3, 4) with strides (4, 48, 16) that is
    contiguous in neither order, resolved in mode 'K' for an element size
    of 4: the sorted axis order is [1, 2, 0], the explicit strides,
    indexed by original axis, are [4, 32, 8], and the fresh buffer is 96
    bytes. *)
Theorem closest_match_permuted_example a dt dev :
  shape a = [2; 3; 4] → strides a = [4; 48; 16] →
  flags a = {| c_contiguous := false; f_contiguous := false |} →
  itemsize dt = 4 →
  sorted_stride_perm a = [1%nat; 2%nat; 0%nat] ∧
  _new_like_order_and_strides a dt "K" dev
  = Ok (("C", Some [4; 32; 8],
         Some {| mem := length dev; mem_size := 96; ptr := 0 |}),
        dev ++ [λ _, None]).
Proof.
  destruct a as [shp d strd m fl], dt as [nm isz knd]. simpl.
  intros -> -> -> ->. split; reflexivity.
Qed.

Lemma closest_match_permuted_example_witness :
  sorted_stride_perm permuted_source = [1%nat; 2%nat; 0%nat] ∧
  _new_like_order_and_strides permuted_source float32 "K" source_device
  = Ok (("C", Some [4; 32; 8], Some {| mem := 1; mem_size := 96; ptr := 0 |}),
        source_device ++ [λ _, None]).
Proof.
  apply (closest_match_permuted_example permuted_source float32 source_device);
    reflexivity.
Defined.

Lemma c_strides_length shp isz : length (c_strides shp isz) = length shp.
Proof.
  unfold c_strides. rewrite length_reverse, <- (length_reverse shp).
  generalize (reverse shp) as d. intros d. revert isz.
  induction d as [|n d IH]; intros isz; simpl; [done|]. by rewrite IH.
Qed.

Lemma take_axes_length shp axes :
  Forall (λ ax, ax < length shp)%nat axes →
  length (take_axes shp axes) = length axes.
Proof. intros H. symmetry. eapply Forall2_length, take_axes_Forall2, H. Qed.

(** Strides assigned through a permutation of the axes are, as a
    collection, the strides that were assigned. *)
Lemma assigned_through_perm (perm : list nat) (strd cs : list Z) :
  perm ≡ₚ seq 0 (length strd) → length cs = length perm →
  (∀ t ax, perm !! t = Some ax → strd !! ax = cs !! t) →
  strd ≡ₚ cs.
Proof.
  intros Hperm Hlen Hspec.
  set (g := λ ax : nat, default 0 (strd !! ax)).
  assert (Hcs : cs = g <$> perm).
  { apply list_eq. intros t. rewrite list_lookup_fmap.
    destruct (perm !! t) as [ax|] eqn:Ht; simpl.
    - rewrite <- (Hspec t ax Ht).
      assert (ax ∈ seq 0 (length strd)) as Hax.
      { rewrite <- Hperm. by eapply list_elem_of_lookup_2. }
      apply elem_of_seq in Hax.
      destruct (lookup_lt_is_Some_2 strd ax ltac:(lia)) as [v Hv].
      unfold g. by rewrite Hv.
    - apply lookup_ge_None. apply lookup_ge_None in Ht. lia. }
  assert (Hstrd : strd = g <$> seq 0 (length strd)).
  { apply list_eq. intros i. rewrite list_lookup_fmap.
    destruct (decide (i < length strd)%nat) as [Hi|Hi].
    - rewrite lookup_seq_lt by done. simpl.
      destruct (lookup_lt_is_Some_2 strd i Hi) as [v Hv].
      unfold g. by rewrite Hv.
    - rewrite lookup_seq_ge by lia. simpl. apply lookup_ge_None. lia. }
  rewrite Hcs, Hstrd at 1. by rewrite Hperm.
Qed.

(** C5, as stated, fails: on the permuted source of shape (2, 3, 4) the
    explicit strides are (4, 32, 8), which is no rearrangement of the
    row-major strides (48, 16, 4) of that shape. *)
Lemma explicit_strides_not_row_major_of_shape :
  ¬ (∀ a dt dev strd m dev',
       _new_like_order_and_strides a dt "K" dev
       = Ok (("C", Some strd, Some m), dev') →
       strd ≡ₚ c_strides (shape a) (itemsize dt)).
Proof.
  intros H.
  specialize (H permuted_source float32 source_device [4; 32; 8] _ _ eq_refl).
  change (c_strides _ _) with [48; 16; 4] in H.
  assert (32 ∈ [48; 16; 4]) as Hin.
  { rewrite <- H. rewrite !elem_of_cons. auto. }
  rewrite !elem_of_cons, elem_of_nil in Hin. lia.
Qed.

(** C5 (amended).  For a well-formed source that reaches the explicit
    branch of mode 'K', the sorted axis order is a permutation of the
    axes, and the produced strides are the row-major strides of the shape
    transposed into that order, handed back to the original axes: the
    axis at sorted position [t] gets the element size times the extents of
    the axes at later sorted positions.  The fresh buffer requested holds
    exactly size * element size bytes. *)
Theorem closest_match_explicit_strides a dt dev :
  wf a →
  c_contiguous (flags a) = false → (2 ≤ ndim a)%nat →
  f_contiguous (flags a) = false →
  sorted_stride_perm a ≡ₚ seq 0 (ndim a) ∧
  ∃ strd,
    _new_like_order_and_strides a dt "K" dev
    = Ok (("C", Some strd,
           Some {| mem := length dev; mem_size := size a * itemsize dt;
                   ptr := 0 |}),
          dev ++ [λ _, None]) ∧
    length strd = ndim a ∧
    (∀ t ax, sorted_stride_perm a !! t = Some ax →
             strd !! ax
             = c_strides (take_axes (shape a) (sorted_stride_perm a))
                         (itemsize dt) !! t) ∧
    strd ≡ₚ c_strides (take_axes (shape a) (sorted_stride_perm a))
                      (itemsize dt).
Proof.
  intros Hwf Hc Hn Hf.
  pose proof (sorted_stride_perm_perm a Hwf) as Hperm.
  split; [done|].
  destruct (resolver_K_explicit a dt dev Hwf Hc Hn Hf)
    as (strd & Hres & Hlen & Hspec).
  exists strd. split_and!; [done..|].
  apply (assigned_through_perm (sorted_stride_perm a)); [by rewrite Hlen| |done].
  rewrite c_strides_length. apply take_axes_length.
  apply Forall_forall. intros ax Hax. by apply sorted_stride_perm_lt.
Qed.

Lemma closest_match_explicit_strides_witness :
  sorted_stride_perm permuted_source ≡ₚ seq 0 3 ∧
  ∃ strd,
    _new_like_order_and_strides permuted_source float32 "K" source_device
    = Ok (("C", Some strd, Some {| mem := 1; mem_size := 24 * 4; ptr := 0 |}),
          source_device ++ [λ _, None]) ∧
    length strd = 3%nat ∧
    (∀ t ax, sorted_stride_perm permuted_source !! t = Some ax →
             strd !! ax
             = c_strides (take_axes (shape permuted_source)
                                    (sorted_stride_perm permuted_source))
                         4 !! t) ∧
    strd ≡ₚ c_strides (take_axes (shape permuted_source)
                                 (sorted_stride_perm permuted_source)) 4.
Proof.
  apply (closest_match_explicit_strides permuted_source float32 source_device);
    [reflexivity|reflexivity|vm_compute; lia|reflexivity].
Defined.

(** C6.  A mode outside 'C', 'F', 'A', 'K' makes the resolver raise
    [TypeError] at once, whatever the source, and every [_like] routine
    passes the exception on: no order is chosen in its place. *)
Theorem unknown_mode_raises a dt order fill_value dev :
  order ∉ layout_modes →
  let e := TypeError ("order not understood: " ++ order) in
  _new_like_order_and_strides a (default (dtype a) dt) order dev = Raise e ∧
  empty_like a dt order dev = Raise e ∧
  ones_like a dt order dev = Raise e ∧
  zeros_like a dt order dev = Raise e ∧
  full_like a fill_value dt order dev = Raise e.
Proof.
  intros Hnot e. unfold layout_modes in Hnot.
  rewrite !not_elem_of_cons in Hnot. destruct Hnot as (HC & HF & HA & HK & _).
  pose proof (resolver_other a (default (dtype a) dt) order dev HC HF HA HK) as Hres.
  assert (Hel : empty_like a dt order dev = Raise e).
  { unfold empty_like, bind.
    change (match dt with Some d0 => d0 | None => dtype a end)
      with (default (dtype a) dt).
    by rewrite Hres. }
  split_and!; [done..| | |].
  - rewrite ones_like_unfold. unfold bind at 1. by rewrite Hel.
  - rewrite zeros_like_unfold. unfold bind at 1. by rewrite Hel.
  - rewrite full_like_unfold. unfold bind at 1. by rewrite Hel.
Qed.

Lemma unknown_mode_raises_witness :
  let e := TypeError "order not understood: c" in
  _new_like_order_and_strides c_source float32 "c" source_device = Raise e ∧
  empty_like c_source None "c" source_device = Raise e ∧
  ones_like c_source None "c" source_device = Raise e ∧
  zeros_like c_source None "c" source_device = Raise e ∧
  full_like c_source (PyScalar (PyInt 7)) None "c" source_device = Raise e.
Proof.
  apply (unknown_mode_raises c_source None "c" (PyScalar (PyInt 7))
           source_device).
  unfold layout_modes. rewrite !not_elem_of_cons. split_and!; try discriminate.
  apply not_elem_of_nil.
Defined.

(** C9.  The layout decision is a function of the source's shape, strides
    and contiguity flags, of the element size and of the mode alone: two
    sources agreeing on these get the same order, the same explicit
    strides and the same buffer size (or the same exception), whatever
    their data pointers, the names of the dtypes and the state of the
    device.  In particular two successive calls of [empty_like] in mode
    'K' on one well-formed source both return, and return arrays of equal
    shape, strides, dtype and flags.  With the flags derived from shape,
    strides and element size, the decision is a function of shape,
    strides, the two element sizes and the mode. *)
Theorem layout_decision_deterministic a b dt1 dt2 order dev1 dev2 :
  (shape a = shape b → strides a = strides b → flags a = flags b →
   itemsize dt1 = itemsize dt2 →
   layout_decision (_new_like_order_and_strides a dt1 order dev1)
   = layout_decision (_new_like_order_and_strides b dt2 order dev2)) ∧
  (∀ shp strd d1 d2 p1 p2,
     itemsize d1 = itemsize d2 → itemsize dt1 = itemsize dt2 →
     layout_decision
       (_new_like_order_and_strides (array_of shp strd d1 p1) dt1 order dev1)
     = layout_decision
         (_new_like_order_and_strides (array_of shp strd d2 p2) dt2 order dev2)) ∧
  (wf a →
   ∃ r1 dev1' r2 dev2',
     empty_like a None "K" dev1 = Ok (r1, dev1') ∧
     empty_like a None "K" dev1' = Ok (r2, dev2') ∧
     shape r1 = shape r2 ∧ strides r1 = strides r2 ∧
     dtype r1 = dtype r2 ∧ flags r1 = flags r2).
Proof.
  assert (Hgen : ∀ a b dt1 dt2,
            shape a = shape b → strides a = strides b → flags a = flags b →
            itemsize dt1 = itemsize dt2 →
            layout_decision (_new_like_order_and_strides a dt1 order dev1)
            = layout_decision (_new_like_order_and_strides b dt2 order dev2)).
  { clear. intros [shp d1 strd m1 fl] [shp' d2 strd' m2 fl']
      [nm1 isz k1] [nm2 isz' k2]. simpl.
    intros <- <- <- <-.
    unfold _new_like_order_and_strides, sorted_stride_perm, ndim, size.
    cbn [shape strides flags itemsize].
    unfold bind, lift, empty, cupy_ndarray, bind, ret, raise, alloc.
    repeat case_match; simplify_eq; reflexivity. }
  split_and!.
  - apply Hgen.
  - intros shp strd d1 d2 p1 p2 Hsrc Hdt.
    apply Hgen; [done|done| |done].
    unfold array_of. simpl. by rewrite Hsrc.
  - intros Hwf.
    destruct (empty_like_ok a None "K" Hwf) as (st & Hst).
    { unfold layout_modes. rewrite !elem_of_cons. auto. }
    destruct (Hst dev1) as (m1 & dev1' & H1).
    destruct (Hst dev1') as (m2 & dev2' & H2).
    eexists _, dev1', _, dev2'. split_and!; [exact H1|exact H2|done..].
Qed.

Lemma layout_decision_deterministic_witness :
  layout_decision
    (_new_like_order_and_strides permuted_source float32 "K" source_device)
  = layout_decision
      (_new_like_order_and_strides (array_of [2; 3; 4] [4; 48; 16] float32 1)
         (Dtype "int32" 4 KInt) "K" [λ _, None; λ _, None]) ∧
  layout_decision
    (_new_like_order_and_strides (array_of [2; 3] [0; 0] float32 0)
       float32 "K" source_device)
  = layout_decision
      (_new_like_order_and_strides (array_of [2; 3] [0; 0] (Dtype "int32" 4 KInt) 1)
         (Dtype "int32" 4 KInt) "K" [λ _, None; λ _, None]) ∧
  ∃ r1 dev1' r2 dev2',
    empty_like permuted_source None "K" source_device = Ok (r1, dev1') ∧
    empty_like permuted_source None "K" dev1' = Ok (r2, dev2') ∧
    shape r1 = shape r2 ∧ strides r1 = strides r2 ∧
    dtype r1 = dtype r2 ∧ flags r1 = flags r2.
Proof.
  split_and!.
  - apply (proj1 (layout_decision_deterministic permuted_source
                    (array_of [2; 3; 4] [4; 48; 16] float32 1)
                    float32 (Dtype "int32" 4 KInt) "K" source_device
                    [λ _, None; λ _, None])); reflexivity.
  - apply (proj1 (proj2 (layout_decision_deterministic permuted_source
                    permuted_source float32 (Dtype "int32" 4 KInt) "K" source_device
                    [λ _, None; λ _, None]))
             [2; 3] [0; 0] float32 (Dtype "int32" 4 KInt) 0%nat 1%nat);
      reflexivity.
  - apply (proj2 (proj2 (layout_decision_deterministic permuted_source
                    permuted_source float32 float32 "K" source_device
                    source_device))).
    reflexivity.
Defined.

(** ** Properties of the creation routines *)

(** C10.  With the dtype argument omitted, each of [empty_like],
    [ones_like], [zeros_like] and [full_like], called on a well-formed
    source with a mode the resolver understands, returns an array whose
    dtype is the source's. *)
Theorem like_dtype_defaults_to_source a order fill_value dev :
  wf a → order ∈ layout_modes →
  (∃ r dev', empty_like a None order dev = Ok (r, dev') ∧ dtype r = dtype a) ∧
  (∃ r dev', ones_like a None order dev = Ok (r, dev') ∧ dtype r = dtype a) ∧
  (∃ r dev', zeros_like a None order dev = Ok (r, dev') ∧ dtype r = dtype a) ∧
  (∃ r dev', full_like a fill_value None order dev = Ok (r, dev') ∧
             dtype r = dtype a).
Proof.
  intros Hwf Hin.
  destruct (empty_like_ok a None order Hwf Hin) as (st & Hst).
  destruct (Hst dev) as (m & dev' & Hel). simpl in Hel.
  split_and!.
  - eexists _, _. split; [exact Hel|done].
  - eexists _, _. rewrite ones_like_unfold. unfold bind at 1. rewrite Hel.
    split; [reflexivity|done].
  - eexists _, _. rewrite zeros_like_unfold. unfold bind at 1. rewrite Hel.
    split; [reflexivity|done].
  - eexists _, _. rewrite full_like_unfold. unfold bind at 1. rewrite Hel.
    split; [reflexivity|done].
Qed.

Lemma like_dtype_defaults_to_source_witness :
  (∃ r dev', empty_like permuted_source None "K" source_device = Ok (r, dev') ∧
             dtype r = float32) ∧
  (∃ r dev', ones_like permuted_source None "K" source_device = Ok (r, dev') ∧
             dtype r = float32) ∧
  (∃ r dev', zeros_like permuted_source None "K" source_device = Ok (r, dev') ∧
             dtype r = float32) ∧
  (∃ r dev', full_like permuted_source (PyScalar (PyInt 7)) None "K"
               source_device
             = Ok (r, dev') ∧ dtype r = float32).
Proof.
  apply (like_dtype_defaults_to_source permuted_source "K"
           (PyScalar (PyInt 7)) source_device).
  - reflexivity.
  - unfold layout_modes. rewrite !elem_of_cons. auto 10.
Defined.

(** ** Device memory under [fill] *)

Lemma elem_of_ndindex shp idx : idx ∈ ndindex shp ↔ valid_index shp idx.
Proof.
  unfold valid_index. revert idx.
  induction shp as [|n shp IH]; intros idx; simpl.
  - rewrite list_elem_of_singleton. split; [intros ->; constructor|].
    by inversion 1.
  - rewrite list_elem_of_bind. split.
    + intros (i & Hin & Hi). apply list_elem_of_fmap in Hin as (rest & -> & Hrest).
      apply elem_of_seqZ in Hi. constructor; [lia|]. by apply IH.
    + inversion 1 as [|i ? rest ? Hi Hrest]; subst.
      exists i. split; [|apply elem_of_seqZ; lia].
      apply list_elem_of_fmap. exists rest. split; [done|]. by apply IH.
Qed.

Lemma foldl_store_spec {A} (g : A → Z) p v xs :
  ∀ dev b, dev !! p = Some b →
    ∃ b', foldl (λ d x, store p (g x) v d) dev xs !! p = Some b' ∧
          (∀ x, x ∈ xs → b' (g x) = v) ∧
          (∀ o, o ∉ g <$> xs → b' o = b o).
Proof.
  induction xs as [|x xs IH]; intros dev b Hb; simpl.
  - exists b. split_and!; [done| |done]. intros x Hx. by apply elem_of_nil in Hx.
  - destruct (IH (store p (g x) v dev) (poke (g x) v b)) as (b' & Hb' & Hin & Hout).
    { unfold store. by rewrite list_lookup_alter_eq, Hb. }
    exists b'. split_and!; [done| |].
    + intros y Hy.
      destruct (decide (g y ∈ g <$> xs)) as [Hmem|Hmem].
      * apply list_elem_of_fmap in Hmem as (z & Hz & Hzin).
        rewrite Hz. by apply Hin.
      * rewrite (Hout _ Hmem). unfold poke.
        apply elem_of_cons in Hy as [->|Hy].
        -- by rewrite Z.eqb_refl.
        -- exfalso. apply Hmem. apply list_elem_of_fmap. eauto.
    + intros o Ho. apply not_elem_of_cons in Ho as [Hne Ho].
      rewrite (Hout o Ho). unfold poke.
      destruct (Z.eqb_spec o (g x)); [done|done].
Qed.

Lemma fill_spec a value dev b :
  dev !! mem (data a) = Some b →
  ∃ dev' b',
    fill a value dev = Ok (tt, dev') ∧
    dev' !! mem (data a) = Some b' ∧
    (∀ idx, valid_index (shape a) idx →
            b' (address a idx) = astype (dtype a) (item value)) ∧
    (∀ o, (∀ idx, valid_index (shape a) idx → address a idx ≠ o) → b' o = b o).
Proof.
  intros Hb.
  destruct (foldl_store_spec (address a) (mem (data a))
              (astype (dtype a) (item value))
              (ndindex (shape a)) dev b Hb) as (b' & Hb' & Hin & Hout).
  eexists _, b'. split_and!; [reflexivity|exact Hb'| |].
  - intros idx Hidx. apply Hin. by apply elem_of_ndindex.
  - intros o Ho. apply Hout. intros Hmem.
    apply list_elem_of_fmap in Hmem as (idx & -> & Hidx).
    apply elem_of_ndindex in Hidx. by apply (Ho idx).
Qed.

Lemma astype_one dt :
  0 < itemsize dt → astype dt (PyInt 1) = Some (PyInt 1).
Proof.
  intros Hisz. unfold astype. destruct (kind dt); simpl.
  - done.
  - assert (2 ^ 7 ≤ 2 ^ (8 * itemsize dt - 1)) by (apply Z.pow_le_mono_r; lia).
    change (2 ^ 7) with 128 in *.
    destruct (Z.leb_spec (- 2 ^ (8 * itemsize dt - 1)) 1); [|lia].
    destruct (Z.ltb_spec 1 (2 ^ (8 * itemsize dt - 1))); [done|lia].
  - assert (2 ^ 8 ≤ 2 ^ (8 * itemsize dt)) by (apply Z.pow_le_mono_r; lia).
    change (2 ^ 8) with 256 in *.
    destruct (Z.ltb_spec 1 (2 ^ (8 * itemsize dt))); [done|lia].
  - unfold float_precision.
    destruct (itemsize dt =? 2); [done|].
    destruct (itemsize dt =? 4); [done|].
    destruct (itemsize dt =? 8); done.
Qed.




Lemma zeros_C shp dt dev :
  ∃ dev1,
    zeros shp dt "C" dev
    = Ok ({| shape := shp; dtype := dt; strides := c_strides shp (itemsize dt);
             data := {| mem := length dev;
                        mem_size := prod_list shp * itemsize dt; ptr := 0 |};
             flags := contiguity shp (c_strides shp (itemsize dt))
                                 (itemsize dt) |}, dev1) ∧
    dev1 !! length dev
    = Some (λ o, if (0 <=? o) && (o <? 0 + prod_list shp * itemsize dt)
                 then Some (PyInt 0) else None).
Proof.
  unfold zeros, bind at 1.
  rewrite (cupy_ndarray_canonical shp dt "C" dev) by (by left).
  change (String.eqb "C" "C") with true. cbv iota.
  eexists. split; [reflexivity|].
  simpl. rewrite list_lookup_alter_eq.
  by rewrite (list_lookup_middle dev [] _ (length dev)).
Qed.

(** ** The diagonal of [eye] *)

(** Byte offset of the first element of the k-th diagonal in a row-major
    N x M array, as [diagonal] computes it. *)
Lemma diagonal_hits N Mc k isz i j :
  0 < isz → 0 ≤ i < N → 0 ≤ j < Mc → j - i = k →
  ∃ t, 0 ≤ t < Z.max 0 (diagonal_length N Mc k) ∧
       (if 0 <=? k then k * isz else - k * (isz * Mc)) + t * (isz * Mc + isz)
       = i * (isz * Mc) + j * isz.
Proof.
  intros Hisz Hi Hj Hk. unfold diagonal_length.
  destruct (Z.leb_spec 0 k).
  - exists i. split; [lia|]. subst k. ring.
  - exists j. split; [lia|]. subst k. ring.
Qed.

Lemma diagonal_misses N Mc k isz i j t :
  0 < isz → 0 ≤ i < N → 0 ≤ j < Mc →
  0 ≤ t < Z.max 0 (diagonal_length N Mc k) →
  (if 0 <=? k then k * isz else - k * (isz * Mc)) + t * (isz * Mc + isz)
  = i * (isz * Mc) + j * isz →
  j - i = k.
Proof.
  intros Hisz Hi Hj Ht Heq. unfold diagonal_length in Ht.
  destruct (Z.leb_spec 0 k).
  - assert (Hq : isz * ((t - i) * Mc + (t + k - j)) = 0) by lia.
    apply Z.mul_eq_0 in Hq as [?|Hq]; [lia|].
    assert (t = i) by nia. lia.
  - assert (Hq : isz * ((t - k - i) * Mc + (t - j)) = 0) by lia.
    apply Z.mul_eq_0 in Hq as [?|Hq]; [lia|].
    assert (t - k = i) by nia. lia.
Qed.

(** C7.  For non-negative N and M and a dtype of positive item size,
    [eye(N, M, k)] returns an N x M array (M defaults to N) whose element
    (i, j) is 1 when j - i = k and 0 otherwise.  The ones are the
    [diagonal_length N M k] elements of the k-th diagonal, counted from
    its first element; when that length is not positive the array is all
    zeros, and the call still returns.  For N = M = 3 and k = 1 the ones
    are at (0, 1) and (1, 2). *)
Theorem eye_spec N M k dt dev :
  0 ≤ N → 0 ≤ default N M → 0 < itemsize dt →
  ∃ r dev',
    eye N M k dt dev = Ok (r, dev') ∧
    shape r = [N; default N M] ∧
    (∀ i j, 0 ≤ i < N → 0 ≤ j < default N M →
       getitem dev' r [i; j] = Some (PyInt (if j - i =? k then 1 else 0))) ∧
    (∀ i j, 0 ≤ i < N → 0 ≤ j < default N M →
       getitem dev' r [i; j] = Some (PyInt 1) ↔
       ∃ t, 0 ≤ t < diagonal_length N (default N M) k ∧
            i = t + Z.max 0 (- k) ∧ j = t + Z.max 0 k) ∧
    (diagonal_length N (default N M) k ≤ 0 →
     ∀ i j, 0 ≤ i < N → 0 ≤ j < default N M →
       getitem dev' r [i; j] = Some (PyInt 0)) ∧
    (N = 3 → M = None → k = 1 →
     ∀ i j, 0 ≤ i < 3 → 0 ≤ j < 3 →
       getitem dev' r [i; j] = Some (PyInt 1) ↔
       (i = 0 ∧ j = 1) ∨ (i = 1 ∧ j = 2)).
Proof.
  intros _ _ Hisz. set (Mc := default N M). set (isz := itemsize dt) in *.
  destruct (zeros_C [N; Mc] dt dev) as (dev1 & Hzeros & Hzb).
  unfold eye.
  change (match M with Some m => m | None => N end) with Mc.
  unfold bind at 1. rewrite Hzeros.
  match type of Hzeros with _ = Ok (?x, _) => set (r := x) in * end.
  match type of Hzb with _ = Some ?f => set (zb := f) in * end.
  unfold bind at 1, diagonal.
  change (shape r) with [N; Mc].
  change (strides r) with [isz * Mc; isz].
  unfold ret at 1.
  match goal with |- context [setitem_all ?x _] => set (d := x) end.
  destruct (fill_spec d (PyScalar (PyInt 1)) dev1 zb Hzb)
    as (dev' & b' & Hfill & Hb' & Hin0 & Hout).
  assert (Hin : ∀ idx, valid_index (shape d) idx →
            b' (address d idx) = Some (PyInt 1)).
  { intros idx Hv. rewrite (Hin0 idx Hv). apply astype_one. exact Hisz. }
  exists r, dev'. unfold bind, setitem_all. rewrite Hfill.
  assert (F : ∀ i j, 0 ≤ i < N → 0 ≤ j < Mc →
            getitem dev' r [i; j] = Some (PyInt (if j - i =? k then 1 else 0))).
  { intros i j Hi Hj. unfold getitem.
    change (mem (data r)) with (mem (data d)). rewrite Hb'. simpl.
    unfold address. change (ptr (data r)) with 0.
    change (offset_of (strides r) [i; j])
      with (i * (isz * Mc) + (j * isz + 0)).
    destruct (Z.eqb_spec (j - i) k) as [Hk|Hk].
    - destruct (diagonal_hits N Mc k isz i j Hisz Hi Hj Hk) as (t & Ht & Heq).
      specialize (Hin [t]). unfold address in Hin.
      change (ptr (data d))
        with (0 + (if 0 <=? k then k * isz else - k * (isz * Mc))) in Hin.
      change (offset_of (strides d) [t])
        with (t * (isz * Mc + isz) + 0) in Hin.
      replace (0 + (i * (isz * Mc) + (j * isz + 0)))
        with (0 + (if 0 <=? k then k * isz else - k * (isz * Mc))
              + (t * (isz * Mc + isz) + 0)) by lia.
      apply Hin. repeat constructor; lia.
    - rewrite Hout.
      + unfold zb. simpl. change (itemsize dt) with isz.
        assert (0 ≤ isz * Mc) by nia.
        assert (0 ≤ i * (isz * Mc)) by nia.
        assert (0 ≤ j * isz) by nia.
        assert (i * Mc + j + 1 ≤ N * Mc) by nia.
        assert ((i * Mc + j + 1) * isz ≤ N * Mc * isz) by nia.
        assert (0 <= i * (isz * Mc) + (j * isz + 0)) by lia.
        assert (i * (isz * Mc) + (j * isz + 0) < N * (Mc * 1) * isz) by lia.
        destruct (Z.leb_spec 0 (0 + (i * (isz * Mc) + (j * isz + 0)))); [|lia].
        destruct (Z.ltb_spec (0 + (i * (isz * Mc) + (j * isz + 0)))
                    (0 + N * (Mc * 1) * isz)); [done|lia].
      + intros idx Hidx Haddr. apply Hk.
        inversion Hidx as [|t ? idx' ? Ht Hnil]; subst.
        inversion Hnil; subst.
        apply (diagonal_misses N Mc k isz i j t Hisz Hi Hj Ht).
        unfold address in Haddr.
        change (ptr (data d))
          with (0 + (if 0 <=? k then k * isz else - k * (isz * Mc))) in Haddr.
        change (offset_of (strides d) [t])
          with (t * (isz * Mc + isz) + 0) in Haddr.
        lia. }
  split_and!; [done|done|exact F| | |].
  - intros i j Hi Hj. rewrite (F i j Hi Hj). unfold diagonal_length.
    destruct (Z.eqb_spec (j - i) k) as [Hk|Hk]; split.
    + intros _. destruct (Z.leb_spec 0 k); [exists i|exists j]; lia.
    + done.
    + intros [=].
    + intros (t & _ & -> & ->). lia.
  - intros Hlen i j Hi Hj. rewrite (F i j Hi Hj).
    destruct (Z.eqb_spec (j - i) k) as [Hk|Hk]; [|done].
    unfold diagonal_length in Hlen. destruct (Z.leb_spec 0 k); lia.
  - intros HN HM Hk i j Hi Hj.
    assert (Mc = 3) as HMc by (unfold Mc; rewrite HM; simpl; lia).
    rewrite (F i j ltac:(lia) ltac:(lia)). subst k.
    destruct (Z.eqb_spec (j - i) 1) as [Hji|Hji]; split.
    + intros _. lia.
    + done.
    + intros [=].
    + lia.
Qed.

Lemma eye_spec_witness :
  ∃ r dev',
    eye 3 None 1 float32 [] = Ok (r, dev') ∧
    shape r = [3; 3] ∧
    (∀ i j, 0 ≤ i < 3 → 0 ≤ j < 3 →
       getitem dev' r [i; j] = Some (PyInt (if j - i =? 1 then 1 else 0))) ∧
    (∀ i j, 0 ≤ i < 3 → 0 ≤ j < 3 →
       getitem dev' r [i; j] = Some (PyInt 1) ↔
       ∃ t, 0 ≤ t < diagonal_length 3 3 1 ∧
            i = t + Z.max 0 (- 1) ∧ j = t + Z.max 0 1) ∧
    (diagonal_length 3 3 1 ≤ 0 →
     ∀ i j, 0 ≤ i < 3 → 0 ≤ j < 3 →
       getitem dev' r [i; j] = Some (PyInt 0)) ∧
    (3 = 3 → @None Z = None → 1 = 1 →
     ∀ i j, 0 ≤ i < 3 → 0 ≤ j < 3 →
       getitem dev' r [i; j] = Some (PyInt 1) ↔
       (i = 0 ∧ j = 1) ∨ (i = 1 ∧ j = 2)).
Proof.
  apply (eye_spec 3 None 1 float32 []); [simpl; lia|simpl; lia|].
  vm_compute. reflexivity.
Defined.

(** ** What the resolver hands to the constructor *)

Lemma fill_strides_length shp perm idims :
  ∀ stride strd strd',
    fill_strides shp perm idims stride strd = Ok strd' →
    length strd' = length strd.
Proof.
  induction idims as [|idim idims IH]; intros stride strd strd'; simpl.
  - by intros [= ->].
  - repeat case_match; try done.
    intros Hrun. apply IH in Hrun. by rewrite Hrun, length_insert.
Qed.

Lemma resolver_result a dt order dev o strd memptr dev' :
  _new_like_order_and_strides a dt order dev = Ok ((o, strd, memptr), dev') →
  (o = "C" ∨ o = "F") ∧
  match strd, memptr with
  | None, None => dev' = dev
  | Some st, Some m =>
      o = "C" ∧ length st = ndim a ∧
      m = {| mem := length dev; mem_size := size a * itemsize dt; ptr := 0 |} ∧
      dev' = dev ++ [λ _, None]
  | _, _ => False
  end.
Proof.
  unfold _new_like_order_and_strides.
  match goal with |- context [String.eqb ?x "C" || _] => set (order' := x) end.
  destruct (String.eqb order' "C") eqn:EC.
  { apply String.eqb_eq in EC. simpl. intros [= <- <- <- <-]. auto. }
  destruct (String.eqb order' "F") eqn:EF.
  { apply String.eqb_eq in EF. simpl. intros [= <- <- <- <-]. auto. }
  simpl. destruct (String.eqb order' "K"); [|done].
  unfold bind, lift.
  destruct (fill_strides _ _ _ _ _) as [st|] eqn:Hrun; [|done].
  unfold empty, cupy_ndarray, bind, ret, alloc. simpl.
  intros [= <- <- <- <-].
  apply fill_strides_length in Hrun. rewrite length_replicate in Hrun.
  rewrite Z.mul_1_r. auto.
Qed.

Lemma resolver_total a dt order dev :
  wf a → order ∈ layout_modes →
  ∃ res dev', _new_like_order_and_strides a dt order dev = Ok (res, dev').
Proof.
  intros Hwf Hin. unfold layout_modes in Hin.
  rewrite !elem_of_cons, elem_of_nil in Hin.
  destruct Hin as [->|[->|[->|[->|[]]]]].
  - eexists _, _. apply resolver_C.
  - eexists _, _. apply resolver_F.
  - eexists _, _. apply resolver_A.
  - destruct (c_contiguous (flags a)) eqn:Hc.
    { eexists _, _. apply resolver_K_row_major. by left. }
    destruct (decide (ndim a ≤ 1)%nat) as [Hn|Hn].
    { eexists _, _. apply resolver_K_row_major. by right. }
    destruct (f_contiguous (flags a)) eqn:Hf.
    { eexists _, _. apply resolver_K_col_major; [done|lia|done]. }
    destruct (resolver_K_explicit a dt dev Hwf Hc ltac:(lia) Hf)
      as (st & Hres & _).
    eexists _, _. exact Hres.
Qed.

(** X1.  Whatever the source and the mode, a result the resolver returns
    is fit for the array constructor: the order is 'C' or 'F', never 'A'
    or 'K'; explicit strides and a buffer come together or not at all;
    without them the device is untouched; with them the order is 'C',
    there is one stride per axis, and the buffer is the one fresh
    allocation of size * itemsize bytes.  For a well-formed source the
    resolver never raises [IndexError] (the loop never indexes out of
    range), and for a mode among 'C', 'F', 'A', 'K' it never raises
    [TypeError]. *)
Theorem resolver_result_fits_constructor a dt order dev :
  (∀ o strd memptr dev',
     _new_like_order_and_strides a dt order dev = Ok ((o, strd, memptr), dev') →
     (o = "C" ∨ o = "F") ∧
     match strd, memptr with
     | None, None => dev' = dev
     | Some st, Some m =>
         o = "C" ∧ length st = ndim a ∧
         m = {| mem := length dev; mem_size := size a * itemsize dt; ptr := 0 |} ∧
         dev' = dev ++ [λ _, None]
     | _, _ => False
     end) ∧
  (wf a → _new_like_order_and_strides a dt order dev ≠ Raise IndexError) ∧
  (wf a → order ∈ layout_modes →
   ∀ msg, _new_like_order_and_strides a dt order dev ≠ Raise (TypeError msg)).
Proof.
  split_and!.
  - intros o strd memptr dev'. apply resolver_result.
  - intros Hwf. destruct (decide (order ∈ layout_modes)) as [Hin|Hnot].
    + destruct (resolver_total a dt order dev Hwf Hin) as (res & dev' & ->).
      done.
    + unfold layout_modes in Hnot. rewrite !not_elem_of_cons in Hnot.
      destruct Hnot as (HC & HF & HA & HK & _).
      by rewrite (resolver_other a dt order dev HC HF HA HK).
  - intros Hwf Hin msg.
    destruct (resolver_total a dt order dev Hwf Hin) as (res & dev' & ->).
    done.
Qed.

Lemma resolver_result_fits_constructor_witness :
  _new_like_order_and_strides broadcast_source int64 "K" source_device
  ≠ Raise IndexError ∧
  ∀ msg, _new_like_order_and_strides broadcast_source int64 "K" source_device
         ≠ Raise (TypeError msg).
Proof.
  split.
  - apply (proj1 (proj2 (resolver_result_fits_constructor broadcast_source
                           int64 "K" source_device))).
    reflexivity.
  - apply (proj2 (proj2 (resolver_result_fits_constructor broadcast_source
                           int64 "K" source_device))).
    + reflexivity.
    + unfold layout_modes. rewrite !elem_of_cons. auto 10.
Defined.

(** ** Allocation and framing *)

Lemma f_strides_from_length shp st : length (f_strides_from shp st) = length shp.
Proof. revert st. induction shp as [|n shp IH]; intros st; simpl; [done|]. by rewrite IH. Qed.

Lemma empty_like_result a dt order dev r dev' :
  empty_like a dt order dev = Ok (r, dev') →
  shape r = shape a ∧ dtype r = default (dtype a) dt ∧
  length (strides r) = ndim a ∧
  data r = {| mem := length dev; mem_size := nbytes r; ptr := 0 |} ∧
  flags r = contiguity (shape r) (strides r) (itemsize (dtype r)) ∧
  dev' = dev ++ [λ _, None].
Proof.
  unfold empty_like, bind.
  change (match dt with Some d0 => d0 | None => dtype a end)
    with (default (dtype a) dt).
  destruct (_new_like_order_and_strides _ _ _ _) as [[[[o st] m] d]|] eqn:Hres;
    [|done].
  apply resolver_result in Hres as [Ho Hm].
  destruct st as [st|], m as [m|]; try done.
  - destruct Hm as (-> & Hlen & -> & ->).
    rewrite cupy_ndarray_explicit. intros [= <- <-]. by split_and!.
  - subst d. rewrite (cupy_ndarray_canonical _ _ _ _ Ho).
    intros [= <- <-]. split_and!; try done. simpl.
    destruct Ho as [-> | ->]; simpl.
    + apply c_strides_length.
    + apply f_strides_from_length.
Qed.

Lemma store_frame p off v dev :
  length (store p off v dev) = length dev ∧
  ∀ q, q ≠ p → store p off v dev !! q = dev !! q.
Proof.
  unfold store. split; [apply length_alter|].
  intros q Hq. by apply list_lookup_alter_ne.
Qed.

Lemma fill_frame a value dev dev' :
  fill a value dev = Ok (tt, dev') →
  length dev' = length dev ∧ ∀ q, q ≠ mem (data a) → dev' !! q = dev !! q.
Proof.
  unfold fill. intros [= <-].
  generalize (ndindex (shape a)) as idxs. intros idxs. revert dev.
  induction idxs as [|idx idxs IH]; intros dev; simpl; [done|].
  destruct (IH (store (mem (data a)) (address a idx)
                      (astype (dtype a) (item value)) dev))
    as [Hlen Hq].
  destruct (store_frame (mem (data a)) (address a idx)
              (astype (dtype a) (item value)) dev)
    as [Hlen' Hq'].
  split; [congruence|]. intros q Hne. by rewrite Hq, Hq'.
Qed.

Lemma memset_frame p value n dev dev' :
  memset_async p value n dev = Ok (tt, dev') →
  length dev' = length dev ∧ ∀ q, q ≠ mem p → dev' !! q = dev !! q.
Proof.
  unfold memset_async. intros [= <-]. split; [apply length_alter|].
  intros q Hq. by apply list_lookup_alter_ne.
Qed.

Lemma then_ret_inv (post : Cu unit) (r0 r : ndarray) dev1 dev' :
  (post ;;; ret r0) dev1 = Ok (r, dev') → r = r0 ∧ post dev1 = Ok (tt, dev').
Proof.
  unfold bind, ret. destruct (post dev1) as [[[] d]|]; [|done].
  by intros [= <- <-].
Qed.

(** A creation routine that builds its array with [empty_like] and then
    writes into it. *)
Lemma like_then_write a dt order (post : ndarray → Cu unit) dev r dev' :
  (∀ r0 d d', post r0 d = Ok (tt, d') →
     length d' = length d ∧ ∀ q, q ≠ mem (data r0) → d' !! q = d !! q) →
  (r0 <- empty_like a dt order ;; post r0 ;;; ret r0) dev = Ok (r, dev') →
  ∃ dev1, empty_like a dt order dev = Ok (r, dev1) ∧
          post r dev1 = Ok (tt, dev').
Proof.
  intros Hframe. unfold bind at 1.
  destruct (empty_like a dt order dev) as [[r0 dev1]|] eqn:Hel; [|done].
  intros Hpost. apply then_ret_inv in Hpost as [-> Hpost]. eauto.
Qed.

Lemma like_frame a dt order (post : ndarray → Cu unit) dev r dev' :
  (∀ r0 d d', post r0 d = Ok (tt, d') →
     length d' = length d ∧ ∀ q, q ≠ mem (data r0) → d' !! q = d !! q) →
  (r0 <- empty_like a dt order ;; post r0 ;;; ret r0) dev = Ok (r, dev') →
  shape r = shape a ∧ dtype r = default (dtype a) dt ∧
  length (strides r) = ndim a ∧
  data r = {| mem := length dev; mem_size := nbytes r; ptr := 0 |} ∧
  length dev' = S (length dev) ∧
  ∀ p b, dev !! p = Some b → dev' !! p = Some b.
Proof.
  intros Hframe Hrun.
  destruct (like_then_write _ _ _ _ _ _ _ Hframe Hrun) as (dev1 & Hel & Hpost).
  apply empty_like_result in Hel as (Hs & Hd & Hl & Hdata & _ & ->).
  apply Hframe in Hpost as [Hlen Hq].
  split_and!; try done.
  - rewrite Hlen, length_app. simpl. lia.
  - intros p b Hp. rewrite Hq.
    + by apply lookup_app_l_Some.
    + rewrite Hdata. simpl. apply lookup_lt_Some in Hp. lia.
Qed.

(** X2.  Whenever [empty_like], [ones_like], [zeros_like] or [full_like]
    returns, the new array has the source's shape, the requested dtype
    (the source's when none is given) and one stride per axis; it owns,
    from offset 0, a buffer of exactly its [nbytes] that did not exist
    before; exactly one buffer was allocated; and every buffer that
    existed before the call, the source's among them, is left as it was. *)
Theorem like_allocates_one_buffer a dt order fill_value dev r dev' :
  empty_like a dt order dev = Ok (r, dev') ∨
  ones_like a dt order dev = Ok (r, dev') ∨
  zeros_like a dt order dev = Ok (r, dev') ∨
  full_like a fill_value dt order dev = Ok (r, dev') →
  shape r = shape a ∧ dtype r = default (dtype a) dt ∧
  length (strides r) = ndim a ∧
  data r = {| mem := length dev; mem_size := nbytes r; ptr := 0 |} ∧
  length dev' = S (length dev) ∧
  (∀ p b, dev !! p = Some b → dev' !! p = Some b) ∧
  ((mem (data a) < length dev)%nat →
   ∀ idx, getitem dev' a idx = getitem dev a idx).
Proof.
  intros Hrun.
  assert (shape r = shape a ∧ dtype r = default (dtype a) dt ∧
          length (strides r) = ndim a ∧
          data r = {| mem := length dev; mem_size := nbytes r; ptr := 0 |} ∧
          length dev' = S (length dev) ∧
          ∀ p b, dev !! p = Some b → dev' !! p = Some b)
    as (Hs & Hd & Hl & Hdata & Hlen & Hold).
  { destruct Hrun as [Hrun|[Hrun|[Hrun|Hrun]]].
    - apply empty_like_result in Hrun as (Hs & Hd & Hl & Hdata & _ & ->).
      split_and!; try done.
      + rewrite length_app. simpl. lia.
      + intros p b Hp. by apply lookup_app_l_Some.
    - rewrite ones_like_unfold in Hrun.
      apply (like_frame a dt order (λ r0, fill r0 (PyScalar (PyInt 1)))); [|done].
      intros r0 d d'. apply fill_frame.
    - rewrite zeros_like_unfold in Hrun.
      apply (like_frame a dt order
               (λ r0, memset_async (data r0) 0 (nbytes r0))); [|done].
      intros r0 d d'. apply memset_frame.
    - rewrite full_like_unfold in Hrun.
      apply (like_frame a dt order (λ r0, fill r0 fill_value)); [|done].
      intros r0 d d'. apply fill_frame. }
  split_and!; try done.
  intros Hsrc idx. unfold getitem.
  destruct (lookup_lt_is_Some_2 dev _ Hsrc) as [b Hb].
  by rewrite Hb, (Hold _ _ Hb).
Qed.

Lemma like_allocates_one_buffer_witness :
  ∃ r dev',
    zeros_like broadcast_source (Some int64) "K" source_device = Ok (r, dev') ∧
    shape r = [2; 3] ∧ dtype r = int64 ∧ length (strides r) = 2%nat ∧
    data r = {| mem := 1; mem_size := nbytes r; ptr := 0 |} ∧
    length dev' = 2%nat ∧
    (∀ p b, source_device !! p = Some b → dev' !! p = Some b) ∧
    ((mem (data broadcast_source) < length source_device)%nat →
     ∀ idx, getitem dev' broadcast_source idx
            = getitem source_device broadcast_source idx).
Proof.
  eexists _, _. split; [reflexivity|].
  apply (like_allocates_one_buffer broadcast_source (Some int64) "K"
           (PyScalar (PyInt 0)) source_device).
  right. right. left. reflexivity.
Defined.

(** ** Dense layouts *)

Lemma prod_list_perm l l' : l ≡ₚ l' → prod_list l = prod_list l'.
Proof.
  unfold prod_list. induction 1; simpl; [done|congruence|lia|congruence].
Qed.

Lemma sum_perm (l l' : list Z) : l ≡ₚ l' → foldr Z.add 0 l = foldr Z.add 0 l'.
Proof. induction 1; simpl; [done|congruence|lia|congruence]. Qed.

Lemma f_strides_from_snoc l n st :
  f_strides_from (l ++ [n]) st = f_strides_from l st ++ [st * prod_list l].
Proof.
  revert st. induction l as [|x l IH]; intros st; simpl.
  - by rewrite Z.mul_1_r.
  - rewrite IH. unfold prod_list. simpl. by rewrite Z.mul_assoc.
Qed.

Lemma c_strides_cons n shp isz :
  c_strides (n :: shp) isz = isz * prod_list shp :: c_strides shp isz.
Proof.
  unfold c_strides. rewrite reverse_cons, f_strides_from_snoc.
  rewrite reverse_app. simpl.
  by rewrite (prod_list_perm _ _ (reverse_Permutation shp)).
Qed.

Lemma valid_index_length shp idx : valid_index shp idx → length idx = length shp.
Proof. apply Forall2_length. Qed.

Lemma offset_c_bound shp isz idx :
  0 ≤ isz → valid_index shp idx →
  0 ≤ offset_of (c_strides shp isz) idx ∧
  offset_of (c_strides shp isz) idx + isz ≤ prod_list shp * isz.
Proof.
  intros Hisz Hv. unfold valid_index in Hv.
  induction Hv as [|i n idx shp Hi _ IH].
  - unfold offset_of, prod_list. simpl. lia.
  - rewrite c_strides_cons.
    change (offset_of (isz * prod_list shp :: c_strides shp isz) (i :: idx))
      with (i * (isz * prod_list shp) + offset_of (c_strides shp isz) idx).
    change (prod_list (n :: shp)) with (n * prod_list shp).
    destruct IH as [IH1 IH2].
    assert (0 ≤ isz * prod_list shp) by lia.
    split; [nia|].
    assert ((i + 1) * (isz * prod_list shp) ≤ n * (isz * prod_list shp)) by nia.
    lia.
Qed.

Lemma offset_c_inj shp isz idx idx' :
  0 < isz → valid_index shp idx → valid_index shp idx' →
  offset_of (c_strides shp isz) idx = offset_of (c_strides shp isz) idx' →
  idx = idx'.
Proof.
  intros Hisz Hv. revert idx'. unfold valid_index in *.
  induction Hv as [|i n idx shp Hi Hv IH]; intros idx' Hv' Heq.
  - by inversion Hv'.
  - inversion Hv' as [|i' ? idx'' ? Hi' Hv'']; subst.
    rewrite c_strides_cons in Heq.
    change (i * (isz * prod_list shp) + offset_of (c_strides shp isz) idx
            = i' * (isz * prod_list shp) + offset_of (c_strides shp isz) idx'')
      in Heq.
    destruct (offset_c_bound shp isz idx ltac:(lia) Hv) as [B1 B2].
    destruct (offset_c_bound shp isz idx'' ltac:(lia) Hv'') as [B1' B2'].
    assert (i = i') as <- by nia.
    f_equal. apply IH; [done|lia].
Qed.

Lemma take_axes_lookup (l : list Z) axes t ax :
  Forall (λ ax, ax < length l)%nat axes →
  axes !! t = Some ax → take_axes l axes !! t = l !! ax.
Proof.
  intros Hall Ht.
  pose proof (take_axes_Forall2 l axes Hall) as HF.
  destruct (Forall2_lookup_l _ _ _ _ _ HF Ht) as (n & Hn & Hl).
  by rewrite Hn, Hl.
Qed.

Lemma perm_in_range (perm : list nat) n :
  perm ≡ₚ seq 0 n → Forall (λ ax, ax < n)%nat perm.
Proof.
  intros Hperm. apply Forall_forall. intros ax Hax.
  rewrite Hperm in Hax. apply elem_of_seq in Hax. lia.
Qed.

Lemma take_axes_seq (l : list Z) : take_axes l (seq 0 (length l)) = l.
Proof.
  apply list_eq. intros i.
  destruct (decide (i < length l)%nat) as [Hi|Hi].
  - rewrite (take_axes_lookup l _ i i); [done| |by apply lookup_seq_lt].
    by apply perm_in_range.
  - rewrite (lookup_ge_None_2 l) by lia.
    apply lookup_ge_None_2.
    rewrite take_axes_length; [rewrite length_seq; lia|].
    by apply perm_in_range.
Qed.

Lemma take_axes_perm (l : list Z) perm :
  perm ≡ₚ seq 0 (length l) → take_axes l perm ≡ₚ l.
Proof.
  intros Hperm. rewrite <- (take_axes_seq l) at 2.
  unfold take_axes. by rewrite Hperm.
Qed.

Lemma zip_mul_seq (idx strd : list Z) :
  length strd = length idx →
  zip_with Z.mul idx strd
  = (λ ax, default 0 (idx !! ax) * default 0 (strd !! ax))
      <$> seq 0 (length idx).
Proof.
  intros Hlen. apply list_eq. intros i.
  rewrite lookup_zip_with, list_lookup_fmap.
  destruct (decide (i < length idx)%nat) as [Hi|Hi].
  - destruct (lookup_lt_is_Some_2 idx i Hi) as [x Hx].
    destruct (lookup_lt_is_Some_2 strd i ltac:(lia)) as [y Hy].
    rewrite lookup_seq_lt by done. simpl. by rewrite Hx, Hy.
  - rewrite (lookup_ge_None_2 idx) by lia.
    by rewrite lookup_seq_ge by lia.
Qed.

Lemma offset_transfer shp st isz perm idx :
  permuted_row_major shp st isz perm → length idx = length shp →
  offset_of st idx
  = offset_of (c_strides (take_axes shp perm) isz) (take_axes idx perm).
Proof.
  intros (Hperm & Hlen & Hspec) Hidx. unfold offset_of.
  rewrite zip_mul_seq by lia. rewrite Hidx.
  set (g := λ ax : nat, default 0 (idx !! ax) * default 0 (st !! ax)).
  transitivity (foldr Z.add 0 (g <$> perm)).
  { apply sum_perm, fmap_Permutation. by symmetry. }
  f_equal. apply list_eq. intros t.
  rewrite list_lookup_fmap, lookup_zip_with.
  pose proof (perm_in_range perm _ Hperm) as Hrange.
  destruct (perm !! t) as [ax|] eqn:Ht; simpl.
  - rewrite (take_axes_lookup idx perm t ax); [|by rewrite Hidx|done].
    rewrite <- (Hspec t ax Ht).
    rewrite Forall_forall in Hrange.
    pose proof (Hrange ax (list_elem_of_lookup_2 _ _ _ Ht)) as Hax.
    destruct (lookup_lt_is_Some_2 idx ax ltac:(lia)) as [x Hx].
    destruct (lookup_lt_is_Some_2 st ax ltac:(lia)) as [y Hy].
    unfold g. by rewrite Hx, Hy.
  - apply lookup_ge_None in Ht.
    rewrite (lookup_ge_None_2 (take_axes idx perm)); [done|].
    rewrite take_axes_length; [done|by rewrite Hidx].
Qed.

Lemma valid_transfer shp perm idx :
  perm ≡ₚ seq 0 (length shp) → valid_index shp idx →
  valid_index (take_axes shp perm) (take_axes idx perm).
Proof.
  intros Hperm Hv. pose proof (valid_index_length _ _ Hv) as Hlen.
  pose proof (perm_in_range perm _ Hperm) as Hrange.
  apply Forall2_same_length_lookup_2.
  { rewrite !take_axes_length; [done|done|by rewrite Hlen]. }
  intros t i n Hi Hn.
  destruct (perm !! t) as [ax|] eqn:Ht.
  - rewrite (take_axes_lookup idx perm t ax) in Hi; [|by rewrite Hlen|done].
    rewrite (take_axes_lookup shp perm t ax) in Hn; [|done..].
    apply (Forall2_lookup_lr _ _ _ _ _ _ Hv Hi Hn).
  - apply lookup_ge_None in Ht. apply lookup_lt_Some in Hn.
    rewrite take_axes_length in Hn; [lia|done].
Qed.

Lemma take_axes_inj (idx idx' : list Z) perm :
  perm ≡ₚ seq 0 (length idx) → length idx' = length idx →
  take_axes idx perm = take_axes idx' perm → idx = idx'.
Proof.
  intros Hperm Hlen Heq. apply list_eq. intros ax.
  pose proof (perm_in_range perm _ Hperm) as Hrange.
  destruct (decide (ax < length idx)%nat) as [Hax|Hax].
  - assert (ax ∈ perm) as Hin.
    { rewrite Hperm. apply elem_of_seq. lia. }
    apply list_elem_of_lookup in Hin as [t Ht].
    rewrite <- (take_axes_lookup idx perm t ax Hrange Ht).
    rewrite <- (take_axes_lookup idx' perm t ax); [by rewrite Heq| |done].
    by rewrite Hlen.
  - by rewrite !lookup_ge_None_2 by lia.
Qed.

(** A dense layout keeps every element inside [prod shp * isz] bytes and
    gives distinct elements distinct offsets. *)
Lemma dense_layout shp st isz perm :
  permuted_row_major shp st isz perm → 0 < isz →
  (∀ idx, valid_index shp idx →
     0 ≤ offset_of st idx ∧ offset_of st idx + isz ≤ prod_list shp * isz) ∧
  (∀ idx idx', valid_index shp idx → valid_index shp idx' →
     offset_of st idx = offset_of st idx' → idx = idx').
Proof.
  intros Hdense Hisz. pose proof Hdense as (Hperm & Hlen & Hspec).
  split.
  - intros idx Hv. pose proof (valid_index_length _ _ Hv) as Hidx.
    rewrite (offset_transfer shp st isz perm idx Hdense Hidx).
    rewrite <- (prod_list_perm _ _ (take_axes_perm shp perm Hperm)).
    apply offset_c_bound; [lia|]. by apply valid_transfer.
  - intros idx idx' Hv Hv' Heq.
    pose proof (valid_index_length _ _ Hv) as Hidx.
    pose proof (valid_index_length _ _ Hv') as Hidx'.
    rewrite (offset_transfer shp st isz perm idx Hdense Hidx) in Heq.
    rewrite (offset_transfer shp st isz perm idx' Hdense Hidx') in Heq.
    apply offset_c_inj in Heq; [|done|by apply valid_transfer..].
    apply (take_axes_inj idx idx' perm); [by rewrite Hidx|lia|done].
Qed.

Lemma c_order_dense shp isz :
  permuted_row_major shp (c_strides shp isz) isz (seq 0 (length shp)).
Proof.
  split_and!; [done|apply c_strides_length|].
  intros t ax Ht. apply lookup_seq in Ht as [-> _].
  by rewrite take_axes_seq.
Qed.

Lemma f_order_dense shp isz :
  permuted_row_major shp (f_strides shp isz) isz (reverse (seq 0 (length shp))).
Proof.
  split_and!; [apply reverse_Permutation|apply f_strides_from_length|].
  intros t ax Ht.
  assert (Ht' : (t < length shp)%nat).
  { apply lookup_lt_Some in Ht. by rewrite length_reverse, length_seq in Ht. }
  rewrite reverse_lookup in Ht by (rewrite length_seq; lia).
  rewrite length_seq in Ht. apply lookup_seq in Ht as [-> _].
  rewrite take_axes_reverse, take_axes_seq.
  unfold c_strides, f_strides. rewrite reverse_involutive.
  rewrite reverse_lookup by (rewrite f_strides_from_length; lia).
  by rewrite f_strides_from_length.
Qed.

Lemma resolver_explicit_inv a dt order dev o st m dev' :
  _new_like_order_and_strides a dt order dev = Ok ((o, Some st, m), dev') →
  fill_strides (shape a) (sorted_stride_perm a) (reverse (seq 0 (ndim a)))
               (itemsize dt) (replicate (ndim a) 0) = Ok st.
Proof.
  unfold _new_like_order_and_strides.
  match goal with |- context [String.eqb ?x "C" || _] => set (order' := x) end.
  destruct (String.eqb order' "C"); [done|].
  destruct (String.eqb order' "F"); [done|].
  simpl. destruct (String.eqb order' "K"); [|done].
  unfold bind, lift.
  destruct (fill_strides _ _ _ _ _) as [st'|]; [|done].
  unfold empty, cupy_ndarray, bind, ret, alloc. simpl. by intros [= <- <- <-].
Qed.

(** Every array [empty_like] builds from a well-formed source is laid out
    densely, whatever the mode. *)
Lemma empty_like_dense a dt order dev r dev' :
  wf a → empty_like a dt order dev = Ok (r, dev') →
  ∃ perm, permuted_row_major (shape r) (strides r) (itemsize (dtype r)) perm.
Proof.
  intros Hwf. unfold empty_like, bind.
  change (match dt with Some d0 => d0 | None => dtype a end)
    with (default (dtype a) dt).
  destruct (_new_like_order_and_strides _ _ _ _) as [[[[o st] m] d]|] eqn:Hres;
    [|done].
  pose proof (resolver_result _ _ _ _ _ _ _ _ Hres) as [Ho Hm].
  destruct st as [st|], m as [m|]; try done.
  - apply resolver_explicit_inv in Hres.
    destruct (closest_match_loop a (itemsize (default (dtype a) dt)) Hwf)
      as (st' & Hrun & Hlen & Hspec).
    rewrite Hrun in Hres. injection Hres as ->.
    rewrite cupy_ndarray_explicit. intros [= <- <-]. simpl.
    exists (sorted_stride_perm a). split_and!; [|done..].
    by apply sorted_stride_perm_perm.
  - rewrite (cupy_ndarray_canonical _ _ _ _ Ho). intros [= <- <-]. simpl.
    destruct Ho as [-> | ->]; simpl.
    + eexists. apply c_order_dense.
    + eexists. apply f_order_dense.
Qed.

Lemma dense_address r perm idx :
  permuted_row_major (shape r) (strides r) (itemsize (dtype r)) perm →
  0 < itemsize (dtype r) → ptr (data r) = 0 → valid_index (shape r) idx →
  0 ≤ address r idx ∧ address r idx + itemsize (dtype r) ≤ nbytes r.
Proof.
  intros Hdense Hisz Hptr Hv. unfold address, nbytes, size. rewrite Hptr.
  destruct (dense_layout _ _ _ _ Hdense Hisz) as [Hb _].
  specialize (Hb idx Hv). lia.
Qed.

(** X3.  An array returned by [empty_like], [ones_like], [zeros_like] or
    [full_like] for a well-formed source and a dtype of positive item
    size is laid out densely in its buffer, in every mode: each element
    lies wholly inside the [nbytes] bytes of the buffer, and two distinct
    index tuples never share an address. *)
Theorem like_layout_is_dense a dt order fill_value dev r dev' :
  wf a → 0 < itemsize (default (dtype a) dt) →
  empty_like a dt order dev = Ok (r, dev') ∨
  ones_like a dt order dev = Ok (r, dev') ∨
  zeros_like a dt order dev = Ok (r, dev') ∨
  full_like a fill_value dt order dev = Ok (r, dev') →
  (∀ idx, valid_index (shape a) idx →
     0 ≤ address r idx ∧
     address r idx + itemsize (dtype r) ≤ mem_size (data r)) ∧
  (∀ idx idx', valid_index (shape a) idx → valid_index (shape a) idx' →
     address r idx = address r idx' → idx = idx').
Proof.
  intros Hwf Hisz Hrun.
  assert (∃ dev1, empty_like a dt order dev = Ok (r, dev1)) as [dev1 Hel].
  { destruct Hrun as [Hrun|[Hrun|[Hrun|Hrun]]].
    - eauto.
    - rewrite ones_like_unfold in Hrun.
      destruct (like_then_write a dt order
                  (λ r0, fill r0 (PyScalar (PyInt 1))) dev r dev')
        as (dev1 & Hel & _); [intros r0 d d'; apply fill_frame|done|eauto].
    - rewrite zeros_like_unfold in Hrun.
      destruct (like_then_write a dt order
                  (λ r0, memset_async (data r0) 0 (nbytes r0)) dev r dev')
        as (dev1 & Hel & _); [intros r0 d d'; apply memset_frame|done|eauto].
    - rewrite full_like_unfold in Hrun.
      destruct (like_then_write a dt order (λ r0, fill r0 fill_value) dev r dev')
        as (dev1 & Hel & _); [intros r0 d d'; apply fill_frame|done|eauto]. }
  destruct (empty_like_dense a dt order dev r dev1 Hwf Hel) as [perm Hdense].
  apply empty_like_result in Hel as (Hs & Hd & _ & Hdata & _ & _).
  rewrite <- Hs. rewrite <- Hd in Hisz.
  assert (Hptr : ptr (data r) = 0) by by rewrite Hdata.
  assert (Hsz : mem_size (data r) = nbytes r) by (rewrite Hdata at 1; done).
  split.
  - intros idx Hv. rewrite Hsz. by apply (dense_address r perm).
  - intros idx idx' Hv Hv' Heq. unfold address in Heq.
    destruct (dense_layout _ _ _ _ Hdense Hisz) as [_ Hinj].
    apply Hinj; [done..|lia].
Qed.

Lemma like_layout_is_dense_witness :
  ∃ r dev',
    empty_like broadcast_source None "K" source_device = Ok (r, dev') ∧
    (∀ idx, valid_index [2; 3] idx →
       0 ≤ address r idx ∧ address r idx + 4 ≤ 24) ∧
    (∀ idx idx', valid_index [2; 3] idx → valid_index [2; 3] idx' →
       address r idx = address r idx' → idx = idx').
Proof.
  eexists _, _. split; [reflexivity|].
  eapply (like_layout_is_dense broadcast_source None "K" (PyScalar (PyInt 0))
            source_device).
  - reflexivity.
  - vm_compute. reflexivity.
  - left. reflexivity.
Defined.

(** ** Contents of the filled arrays *)

Lemma memset_reads_zero r perm dev1 b dev' :
  permuted_row_major (shape r) (strides r) (itemsize (dtype r)) perm →
  0 < itemsize (dtype r) → ptr (data r) = 0 →
  dev1 !! mem (data r) = Some b →
  memset_async (data r) 0 (nbytes r) dev1 = Ok (tt, dev') →
  ∀ idx, valid_index (shape r) idx → getitem dev' r idx = Some (PyInt 0).
Proof.
  intros Hdense Hisz Hptr Hb. unfold memset_async. intros [= <-] idx Hv.
  unfold getitem. rewrite list_lookup_alter_eq, Hb. simpl. rewrite Hptr.
  destruct (dense_address r perm idx Hdense Hisz Hptr Hv) as [B1 B2].
  destruct (Z.leb_spec 0 (address r idx)); [|lia].
  destruct (Z.ltb_spec (address r idx) (0 + nbytes r)); [done|lia].
Qed.

Lemma empty_like_buffer a dt order dev r dev1 :
  empty_like a dt order dev = Ok (r, dev1) →
  dev1 !! mem (data r) = Some (λ _, None).
Proof.
  intros Hel. apply empty_like_result in Hel as (_ & _ & _ & Hdata & _ & ->).
  rewrite Hdata. simpl. by apply list_lookup_middle.
Qed.

(** X4.  [zeros_like] on a well-formed source, in any mode the resolver
    understands and for a dtype of positive item size, returns an array of
    the source's shape every element of which reads 0: the zero-fill of
    [nbytes] bytes covers the whole layout, the permuted strides of the
    closest-match branch included. *)
Theorem zeros_like_all_zero a dt order dev :
  wf a → order ∈ layout_modes → 0 < itemsize (default (dtype a) dt) →
  ∃ r dev',
    zeros_like a dt order dev = Ok (r, dev') ∧
    shape r = shape a ∧
    ∀ idx, valid_index (shape a) idx → getitem dev' r idx = Some (PyInt 0).
Proof.
  intros Hwf Hin Hisz.
  destruct (empty_like_ok a dt order Hwf Hin) as (st & Hst).
  destruct (Hst dev) as (m & dev1 & Hel).
  match type of Hel with _ = Ok (?x, _) => set (r := x) in * end.
  destruct (empty_like_dense a dt order dev r dev1 Hwf Hel) as [perm Hdense].
  pose proof (empty_like_buffer _ _ _ _ _ _ Hel) as Hb.
  pose proof (empty_like_result _ _ _ _ _ _ Hel) as (_ & _ & _ & Hdata & _ & _).
  eexists r, _. rewrite zeros_like_unfold. unfold bind at 1. rewrite Hel.
  split_and!; [reflexivity|done|].
  apply (memset_reads_zero r perm dev1 (λ _, None)); try done.
  by rewrite Hdata.
Qed.

Lemma zeros_like_all_zero_witness :
  ∃ r dev',
    zeros_like broadcast_source None "K" source_device = Ok (r, dev') ∧
    shape r = [2; 3] ∧
    ∀ idx, valid_index [2; 3] idx → getitem dev' r idx = Some (PyInt 0).
Proof.
  apply (zeros_like_all_zero broadcast_source None "K" source_device).
  - reflexivity.
  - unfold layout_modes. rewrite !elem_of_cons. auto 10.
  - vm_compute. reflexivity.
Defined.



(** On an int64 source [full_like] with the fill value 7.5 reads 7. *)
Lemma full_like_float_into_int_reads_truncated :
  ∃ r dev',
    full_like (array_of [2; 3] [24; 8] int64 0) (PyScalar (PyFloat 15 2)) None
      "K" source_device
    = Ok (r, dev') ∧
    getitem dev' r [1; 2] = Some (PyInt 7).
Proof. eexists _, _. split; reflexivity. Qed.

(** X6.  [zeros(shape, dtype, order)] with order 'C' or 'F', a shape of
    non-negative extents and a dtype of positive item size returns an
    array of that shape and dtype, with the canonical strides of the
    order, every element of which reads 0; [ones(shape, dtype)] returns a
    row-major array every element of which reads 1. *)
Theorem zeros_ones_filled shp dt order dev :
  Forall (λ n, 0 ≤ n) shp → 0 < itemsize dt → order = "C" ∨ order = "F" →
  (∃ r dev',
     zeros shp dt order dev = Ok (r, dev') ∧ shape r = shp ∧ dtype r = dt ∧
     strides r = (if String.eqb order "C" then c_strides shp (itemsize dt)
                  else f_strides shp (itemsize dt)) ∧
     ∀ idx, valid_index shp idx → getitem dev' r idx = Some (PyInt 0)) ∧
  (∃ r dev',
     ones shp dt dev = Ok (r, dev') ∧ shape r = shp ∧ dtype r = dt ∧
     strides r = c_strides shp (itemsize dt) ∧
     ∀ idx, valid_index shp idx → getitem dev' r idx = Some (PyInt 1)).
Proof.
  intros _ Hisz Ho. split.
  - unfold zeros, bind at 1. rewrite (cupy_ndarray_canonical _ _ _ _ Ho).
    match goal with |- context [memset_async (data ?x)] => set (r := x) end.
    assert (∃ perm, permuted_row_major (shape r) (strides r)
                      (itemsize (dtype r)) perm) as [perm Hdense].
    { destruct Ho as [-> | ->]; eexists; [apply c_order_dense|apply f_order_dense]. }
    eexists r, _. unfold bind.
    split_and!; [reflexivity|done..|].
    apply (memset_reads_zero r perm (dev ++ [λ _, None]) (λ _, None));
      try done.
    by apply list_lookup_middle.
  - unfold ones, bind at 1.
    rewrite (cupy_ndarray_canonical shp dt "C" dev) by (by left).
    change (String.eqb "C" "C") with true. cbv iota.
    match goal with |- context [fill ?x _] => set (r := x) end.
    destruct (fill_spec r (PyScalar (PyInt 1)) (dev ++ [λ _, None]) (λ _, None))
      as (dev' & b' & Hfill & Hb' & Hin & _).
    { by apply list_lookup_middle. }
    exists r, dev'. unfold bind. rewrite Hfill. split_and!; [done..|].
    intros idx Hv. unfold getitem. rewrite Hb'. simpl.
    rewrite (Hin idx Hv). by apply astype_one.
Qed.

Lemma zeros_ones_filled_witness :
  (∃ r dev',
     zeros [3; 4] float32 "F" [] = Ok (r, dev') ∧ shape r = [3; 4] ∧
     dtype r = float32 ∧ strides r = [4; 12] ∧
     ∀ idx, valid_index [3; 4] idx → getitem dev' r idx = Some (PyInt 0)) ∧
  (∃ r dev',
     ones [3; 4] float32 [] = Ok (r, dev') ∧ shape r = [3; 4] ∧
     dtype r = float32 ∧ strides r = [16; 4] ∧
     ∀ idx, valid_index [3; 4] idx → getitem dev' r idx = Some (PyInt 1)).
Proof.
  apply (zeros_ones_filled [3; 4] float32 "F" []).
  - repeat constructor; lia.
  - vm_compute. reflexivity.
  - by right.
Defined.

(** ** [eye] and [identity] *)

Lemma eye_getitem N M k dt dev :
  0 < itemsize dt →
  ∃ r dev',
    eye N M k dt dev = Ok (r, dev') ∧
    shape r = [N; default N M] ∧ dtype r = dt ∧
    ∀ i j, 0 ≤ i < N → 0 ≤ j < default N M →
      getitem dev' r [i; j] = Some (PyInt (if j - i =? k then 1 else 0)).
Proof.
  intros Hisz. set (Mc := default N M). set (isz := itemsize dt) in *.
  destruct (zeros_C [N; Mc] dt dev) as (dev1 & Hzeros & Hzb).
  unfold eye.
  change (match M with Some m => m | None => N end) with Mc.
  unfold bind at 1. rewrite Hzeros.
  match type of Hzeros with _ = Ok (?x, _) => set (r := x) in * end.
  match type of Hzb with _ = Some ?f => set (zb := f) in * end.
  unfold bind at 1, diagonal.
  change (shape r) with [N; Mc].
  change (strides r) with [isz * Mc; isz].
  unfold ret at 1.
  match goal with |- context [setitem_all ?x _] => set (d := x) end.
  destruct (fill_spec d (PyScalar (PyInt 1)) dev1 zb Hzb)
    as (dev' & b' & Hfill & Hb' & Hin0 & Hout).
  assert (Hin : ∀ idx, valid_index (shape d) idx →
            b' (address d idx) = Some (PyInt 1)).
  { intros idx Hv. rewrite (Hin0 idx Hv). apply astype_one. exact Hisz. }
  exists r, dev'. unfold bind, setitem_all. rewrite Hfill.
  assert (F : ∀ i j, 0 ≤ i < N → 0 ≤ j < Mc →
            getitem dev' r [i; j] = Some (PyInt (if j - i =? k then 1 else 0))).
  { intros i j Hi Hj. unfold getitem.
    change (mem (data r)) with (mem (data d)). rewrite Hb'. simpl.
    unfold address. change (ptr (data r)) with 0.
    change (offset_of (strides r) [i; j])
      with (i * (isz * Mc) + (j * isz + 0)).
    destruct (Z.eqb_spec (j - i) k) as [Hk|Hk].
    - destruct (diagonal_hits N Mc k isz i j Hisz Hi Hj Hk) as (t & Ht & Heq).
      specialize (Hin [t]). unfold address in Hin.
      change (ptr (data d))
        with (0 + (if 0 <=? k then k * isz else - k * (isz * Mc))) in Hin.
      change (offset_of (strides d) [t])
        with (t * (isz * Mc + isz) + 0) in Hin.
      replace (0 + (i * (isz * Mc) + (j * isz + 0)))
        with (0 + (if 0 <=? k then k * isz else - k * (isz * Mc))
              + (t * (isz * Mc + isz) + 0)) by lia.
      apply Hin. repeat constructor; lia.
    - rewrite Hout.
      + unfold zb. simpl. change (itemsize dt) with isz.
        assert (0 ≤ isz * Mc) by nia.
        assert (0 ≤ i * (isz * Mc)) by nia.
        assert (0 ≤ j * isz) by nia.
        assert (i * Mc + j + 1 ≤ N * Mc) by nia.
        assert ((i * Mc + j + 1) * isz ≤ N * Mc * isz) by nia.
        assert (0 <= i * (isz * Mc) + (j * isz + 0)) by lia.
        assert (i * (isz * Mc) + (j * isz + 0) < N * (Mc * 1) * isz) by lia.
        destruct (Z.leb_spec 0 (0 + (i * (isz * Mc) + (j * isz + 0)))); [|lia].
        destruct (Z.ltb_spec (0 + (i * (isz * Mc) + (j * isz + 0)))
                    (0 + N * (Mc * 1) * isz)); [done|lia].
      + intros idx Hidx Haddr. apply Hk.
        inversion Hidx as [|t ? idx' ? Ht Hnil]; subst.
        inversion Hnil; subst.
        apply (diagonal_misses N Mc k isz i j t Hisz Hi Hj Ht).
        unfold address in Haddr.
        change (ptr (data d))
          with (0 + (if 0 <=? k then k * isz else - k * (isz * Mc))) in Haddr.
        change (offset_of (strides d) [t])
          with (t * (isz * Mc + isz) + 0) in Haddr.
        lia. }
  split_and!; [done|done|done|exact F].
Qed.

(** X7.  [identity(n)] returns an n x n array whose element (i, j) is 1
    when i = j and 0 otherwise, for every non-negative n and every dtype
    of positive item size. *)
Theorem identity_is_unit_matrix n dt dev :
  0 ≤ n → 0 < itemsize dt →
  ∃ r dev',
    identity n dt dev = Ok (r, dev') ∧
    shape r = [n; n] ∧ dtype r = dt ∧
    ∀ i j, 0 ≤ i < n → 0 ≤ j < n →
      getitem dev' r [i; j] = Some (PyInt (if i =? j then 1 else 0)).
Proof.
  intros _ Hisz. unfold identity.
  destruct (eye_getitem n None 0 dt dev Hisz) as (r & dev' & Hrun & Hs & Hd & F).
  exists r, dev'. split_and!; [done..|].
  intros i j Hi Hj. rewrite (F i j Hi Hj).
  destruct (Z.eqb_spec (j - i) 0), (Z.eqb_spec i j); try done; lia.
Qed.

Lemma identity_is_unit_matrix_witness :
  ∃ r dev',
    identity 2 float32 [] = Ok (r, dev') ∧
    shape r = [2; 2] ∧ dtype r = float32 ∧
    ∀ i j, 0 ≤ i < 2 → 0 ≤ j < 2 →
      getitem dev' r [i; j] = Some (PyInt (if i =? j then 1 else 0)).
Proof.
  apply (identity_is_unit_matrix 2 float32 []); [lia|].
  vm_compute. reflexivity.
Defined.

(** X8.  Transposition: element (i, j) of [eye(N, M, k)] is element
    (j, i) of [eye(M, N, -k)], for non-negative N and M and a dtype of
    positive item size. *)
Theorem eye_transpose N Mc k dt dev1 dev2 :
  0 ≤ N → 0 ≤ Mc → 0 < itemsize dt →
  ∃ r1 dev1' r2 dev2',
    eye N (Some Mc) k dt dev1 = Ok (r1, dev1') ∧
    eye Mc (Some N) (- k) dt dev2 = Ok (r2, dev2') ∧
    shape r1 = [N; Mc] ∧ shape r2 = [Mc; N] ∧
    ∀ i j, 0 ≤ i < N → 0 ≤ j < Mc →
      getitem dev1' r1 [i; j] = getitem dev2' r2 [j; i].
Proof.
  intros _ _ Hisz.
  destruct (eye_getitem N (Some Mc) k dt dev1 Hisz)
    as (r1 & dev1' & Hrun1 & Hs1 & _ & F1).
  destruct (eye_getitem Mc (Some N) (- k) dt dev2 Hisz)
    as (r2 & dev2' & Hrun2 & Hs2 & _ & F2).
  exists r1, dev1', r2, dev2'. split_and!; [done..|].
  intros i j Hi Hj. simpl in F1, F2.
  rewrite (F1 i j Hi Hj), (F2 j i Hj Hi).
  destruct (Z.eqb_spec (j - i) k), (Z.eqb_spec (i - j) (- k)); try done; lia.
Qed.

Lemma eye_transpose_witness :
  ∃ r1 dev1' r2 dev2',
    eye 2 (Some 3) 1 float32 [] = Ok (r1, dev1') ∧
    eye 3 (Some 2) (- 1) float32 [] = Ok (r2, dev2') ∧
    shape r1 = [2; 3] ∧ shape r2 = [3; 2] ∧
    ∀ i j, 0 ≤ i < 2 → 0 ≤ j < 3 →
      getitem dev1' r1 [i; j] = getitem dev2' r2 [j; i].
Proof.
  apply (eye_transpose 2 3 1 float32 [] []); [lia|lia|].
  vm_compute. reflexivity.
Defined.

(** ** How the closest-match layout follows the source *)

Lemma prod_list_pos shp : Forall (λ n, 1 ≤ n) shp → 1 ≤ prod_list shp.
Proof.
  unfold prod_list. induction 1 as [|n shp Hn _ IH]; simpl; [lia|nia].
Qed.

Lemma c_strides_bounded shp isz :
  Forall (λ n, 1 ≤ n) shp → 0 ≤ isz →
  Forall (λ y, y ≤ isz * prod_list shp) (c_strides shp isz).
Proof.
  intros Hshp Hisz. induction Hshp as [|n shp Hn Hshp IH].
  - constructor.
  - rewrite c_strides_cons.
    change (prod_list (n :: shp)) with (n * prod_list shp).
    pose proof (prod_list_pos shp Hshp) as Hpos.
    assert (isz * prod_list shp ≤ isz * (n * prod_list shp)) by nia.
    constructor; [done|].
    eapply Forall_impl; [exact IH|]. intros y Hy. simpl in Hy. lia.
Qed.

Lemma c_strides_nonincreasing shp isz :
  Forall (λ n, 1 ≤ n) shp → 0 ≤ isz →
  StronglySorted (λ x y, y ≤ x) (c_strides shp isz).
Proof.
  intros Hshp Hisz. induction Hshp as [|n shp Hn Hshp IH].
  - constructor.
  - rewrite c_strides_cons. constructor; [done|].
    by apply c_strides_bounded.
Qed.

(** X9.  The closest-match branch keeps the order of the source's
    (signed) strides: when all extents are at least 1 and the item size is
    not negative, an axis whose source stride is strictly larger than
    another's never gets the smaller new stride of the two. *)
Theorem closest_match_keeps_stride_order a dt dev strd m dev' i j si sj ni nj :
  wf a → Forall (λ n, 1 ≤ n) (shape a) → 0 ≤ itemsize dt →
  _new_like_order_and_strides a dt "K" dev = Ok (("C", Some strd, m), dev') →
  strides a !! i = Some si → strides a !! j = Some sj → sj < si →
  strd !! i = Some ni → strd !! j = Some nj →
  nj ≤ ni.
Proof.
  intros Hwf Hshp Hisz Hres Hsi Hsj Hlt Hni Hnj.
  apply resolver_explicit_inv in Hres.
  destruct (closest_match_loop a (itemsize dt) Hwf) as (st & Hrun & Hlen & Hspec).
  rewrite Hrun in Hres. injection Hres as ->.
  pose proof (sorted_stride_perm_perm a Hwf) as Hperm.
  assert (Hi : i ∈ sorted_stride_perm a).
  { rewrite Hperm. apply elem_of_seq. apply lookup_lt_Some in Hsi.
    unfold wf, ndim in *. lia. }
  assert (Hj : j ∈ sorted_stride_perm a).
  { rewrite Hperm. apply elem_of_seq. apply lookup_lt_Some in Hsj.
    unfold wf, ndim in *. lia. }
  apply list_elem_of_lookup in Hi as [p Hp].
  apply list_elem_of_lookup in Hj as [q Hq].
  rewrite (Hspec p i Hp) in Hni. rewrite (Hspec q j Hq) in Hnj.
  destruct (Nat.lt_trichotomy p q) as [Hpq|[->|Hqp]].
  - assert (Hsorted : StronglySorted (λ x y, y ≤ x)
              (c_strides (take_axes (shape a) (sorted_stride_perm a))
                         (itemsize dt))).
    { apply c_strides_nonincreasing; [|done].
      rewrite (take_axes_perm (shape a) (sorted_stride_perm a)); done. }
    apply (StronglySorted_lookup _ _ _ _ _ _ Hsorted Hpq Hni Hnj).
  - rewrite Hp in Hq. injection Hq as ->. rewrite Hsi in Hsj.
    injection Hsj as ->. lia.
  - destruct (sorted_stride_perm_order a q p j i Hwf Hqp Hq Hp)
      as (sj' & si' & Hsj' & Hsi' & Hord).
    rewrite Hsi in Hsi'. rewrite Hsj in Hsj'.
    injection Hsi' as <-. injection Hsj' as <-. lia.
Qed.

Lemma closest_match_keeps_stride_order_witness : 8 ≤ 32.
Proof.
  apply (closest_match_keeps_stride_order permuted_source float32 source_device
           [4; 32; 8] (Some {| mem := 1; mem_size := 96; ptr := 0 |})
           (source_device ++ [λ _, None]) 1%nat 2%nat 48 16 32 8);
    try reflexivity.
  - repeat constructor; lia.
  - vm_compute. discriminate.
Defined.

Lemma relaxed_eqb_length shp st e :
  relaxed_eqb shp st e = true → length st = length shp.
Proof.
  revert st e. induction shp as [|n shp IH]; intros [|s st] e; simpl; try done.
  intros [_ H]%andb_true_iff. f_equal. by apply (IH st (e * n)).
Qed.

Lemma relaxed_eqb_agree shp st e :
  relaxed_eqb shp st e = true →
  ∀ i n s, shp !! i = Some n → n ≠ 1 → st !! i = Some s →
           f_strides_from shp e !! i = Some s.
Proof.
  revert st e. induction shp as [|n shp IH]; intros [|s st] e; simpl; try done.
  intros [Hhd Htl]%andb_true_iff [|i] n' s' Hn Hne Hs; simpl in *.
  - injection Hn as <-. injection Hs as <-.
    apply orb_true_iff in Hhd as [Hhd|Hhd].
    + apply Z.eqb_eq in Hhd. done.
    + apply Z.eqb_eq in Hhd. by rewrite Hhd.
  - by apply (IH st (e * n) Htl i n' s').
Qed.

Lemma relaxed_eqb_canonical shp e : relaxed_eqb shp (f_strides_from shp e) e = true.
Proof.
  revert e. induction shp as [|n shp IH]; intros e; simpl; [done|].
  by rewrite Z.eqb_refl, orb_true_r, IH.
Qed.

Lemma has_zero_false shp : Forall (λ n, 1 ≤ n) shp → has_zero shp = false.
Proof.
  unfold has_zero. induction 1 as [|n shp Hn _ IH]; [done|].
  cbn [existsb]. rewrite IH, orb_false_r. apply Z.eqb_neq. lia.
Qed.

Lemma c_contiguous_canonical shp isz :
  c_contiguous (contiguity shp (c_strides shp isz) isz) = true.
Proof.
  simpl. unfold c_strides. rewrite reverse_involutive.
  by rewrite relaxed_eqb_canonical, orb_true_r.
Qed.

Lemma f_contiguous_canonical shp isz :
  f_contiguous (contiguity shp (f_strides shp isz) isz) = true.
Proof. simpl. unfold f_strides. by rewrite relaxed_eqb_canonical, orb_true_r. Qed.

(** On the axes whose extent is not 1, a source flagged row-major
    (column-major) contiguous and holding at least one element has the
    row-major (column-major) strides. *)
Lemma c_contiguous_agree shp st isz i n s :
  c_contiguous (contiguity shp st isz) = true → Forall (λ n, 1 ≤ n) shp →
  shp !! i = Some n → n ≠ 1 → st !! i = Some s →
  c_strides shp isz !! i = Some s.
Proof.
  simpl. intros Hc Hshp Hn Hne Hs. rewrite (has_zero_false shp Hshp) in Hc.
  simpl in Hc. pose proof (relaxed_eqb_length _ _ _ Hc) as Hlen.
  rewrite !length_reverse in Hlen.
  assert (Hi : (i < length shp)%nat) by by eapply lookup_lt_Some.
  unfold c_strides.
  rewrite reverse_lookup by (rewrite f_strides_from_length, length_reverse; lia).
  rewrite f_strides_from_length, length_reverse.
  apply (relaxed_eqb_agree _ _ _ Hc _ n s); [|done|].
  - rewrite reverse_lookup by lia.
    replace (length shp - S (length shp - S i))%nat with i by lia. done.
  - rewrite reverse_lookup by lia. rewrite Hlen.
    replace (length shp - S (length shp - S i))%nat with i by lia. done.
Qed.

Lemma f_contiguous_agree shp st isz i n s :
  f_contiguous (contiguity shp st isz) = true → Forall (λ n, 1 ≤ n) shp →
  shp !! i = Some n → n ≠ 1 → st !! i = Some s →
  f_strides shp isz !! i = Some s.
Proof.
  simpl. intros Hf Hshp Hn Hne Hs. rewrite (has_zero_false shp Hshp) in Hf.
  simpl in Hf. by apply (relaxed_eqb_agree _ _ _ Hf i n s).
Qed.

(** X10.  Mode 'K' keeps a contiguous layout.  For a source that holds at
    least one element, whose flags are those of its shape and strides,
    and that is row-major contiguous, or column-major contiguous with at
    least two axes, [empty_like] with the dtype omitted returns an array
    of the source's shape that is contiguous in the same order and has the
    source's stride on every axis whose extent is not 1 (the stride of an
    axis of extent 1 is replaced by the canonical one); when no extent is
    1 the strides are exactly the source's. *)
Theorem closest_match_keeps_contiguous_layout a dev :
  flags a = contiguity (shape a) (strides a) (itemsize (dtype a)) →
  Forall (λ n, 1 ≤ n) (shape a) →
  c_contiguous (flags a) = true ∨
  ((2 ≤ ndim a)%nat ∧ f_contiguous (flags a) = true) →
  ∃ r dev',
    empty_like a None "K" dev = Ok (r, dev') ∧
    shape r = shape a ∧
    (∀ i n s, shape a !! i = Some n → n ≠ 1 → strides a !! i = Some s →
              strides r !! i = Some s) ∧
    (c_contiguous (flags a) = true → c_contiguous (flags r) = true) ∧
    (c_contiguous (flags a) = false → f_contiguous (flags r) = true) ∧
    (Forall (λ n, 2 ≤ n) (shape a) → wf a → strides r = strides a).
Proof.
  intros Hflags Hshp Hcontig.
  assert (Hall : ∀ st : list Z, length st = length (shape a) →
            (∀ i n s, shape a !! i = Some n → n ≠ 1 → strides a !! i = Some s →
                      st !! i = Some s) →
            Forall (λ n, 2 ≤ n) (shape a) → wf a → st = strides a).
  { intros st Hlen Hagree Hbig Hwf. apply list_eq. intros i.
    destruct (strides a !! i) as [s|] eqn:Hs.
    - assert (Hi : (i < length (shape a))%nat).
      { apply lookup_lt_Some in Hs. unfold wf in Hwf. lia. }
      destruct (lookup_lt_is_Some_2 _ _ Hi) as [n Hn].
      apply (Hagree i n s Hn); [|done].
      rewrite Forall_forall in Hbig.
      pose proof (Hbig n (list_elem_of_lookup_2 _ _ _ Hn)). lia.
    - apply lookup_ge_None in Hs. apply lookup_ge_None.
      unfold wf in Hwf. lia. }
  destruct (c_contiguous (flags a)) eqn:Hc.
  - eexists _, _. unfold empty_like, bind.
    rewrite (resolver_K_row_major a (dtype a) dev) by (left; done).
    rewrite (cupy_ndarray_canonical _ _ "C") by (by left). simpl.
    rewrite Hflags in Hc.
    assert (Hagree : ∀ i n s, shape a !! i = Some n → n ≠ 1 →
              strides a !! i = Some s →
              c_strides (shape a) (itemsize (dtype a)) !! i = Some s).
    { intros i n s. by apply c_contiguous_agree. }
    split_and!; [reflexivity|done|exact Hagree| |done|].
    + intros _. apply c_contiguous_canonical.
    + apply Hall; [apply c_strides_length|exact Hagree].
  - destruct Hcontig as [?|[Hn Hf]]; [done|].
    eexists _, _. unfold empty_like, bind.
    rewrite (resolver_K_col_major a (dtype a) dev) by done.
    rewrite (cupy_ndarray_canonical _ _ "F") by (by right). simpl.
    rewrite Hflags in Hf.
    assert (Hagree : ∀ i n s, shape a !! i = Some n → n ≠ 1 →
              strides a !! i = Some s →
              f_strides (shape a) (itemsize (dtype a)) !! i = Some s).
    { intros i n s. by apply f_contiguous_agree. }
    split_and!; [reflexivity|done|exact Hagree|done| |].
    + intros _. apply f_contiguous_canonical.
    + apply Hall; [apply f_strides_from_length|exact Hagree].
Qed.

Lemma closest_match_keeps_contiguous_layout_witness :
  ∃ r dev',
    empty_like (array_of [2; 1; 3] [12; 0; 4] float32 0) None "K" source_device
    = Ok (r, dev') ∧
    shape r = [2; 1; 3] ∧
    (∀ i n s, [2; 1; 3] !! i = Some n → n ≠ 1 → [12; 0; 4] !! i = Some s →
              strides r !! i = Some s) ∧
    (true = true → c_contiguous (flags r) = true) ∧
    (true = false → f_contiguous (flags r) = true) ∧
    (Forall (λ n, 2 ≤ n) [2; 1; 3] →
     wf (array_of [2; 1; 3] [12; 0; 4] float32 0) → strides r = [12; 0; 4]).
Proof.
  apply (closest_match_keeps_contiguous_layout
           (array_of [2; 1; 3] [12; 0; 4] float32 0) source_device).
  - reflexivity.
  - repeat constructor; lia.
  - left. reflexivity.
Defined.

(** The same source, evaluated: the stride of the axis of extent 1 is
    replaced, the other two are kept. *)
Lemma closest_match_replaces_unit_axis_stride :
  ∃ r dev',
    empty_like (array_of [2; 1; 3] [12; 0; 4] float32 0) None "K" source_device
    = Ok (r, dev') ∧
    flags (array_of [2; 1; 3] [12; 0; 4] float32 0)
    = {| c_contiguous := true; f_contiguous := false |} ∧
    strides r = [12; 12; 4].
Proof. eexists _, _. split_and!; reflexivity. Qed.

(** ** Allocation by the plain creation routines *)

Lemma cupy_ndarray_fresh shp dt order dev r dev1 :
  cupy_ndarray shp dt None None order dev = Ok (r, dev1) →
  shape r = shp ∧ dtype r = dt ∧
  data r = {| mem := length dev; mem_size := nbytes r; ptr := 0 |} ∧
  dev1 = dev ++ [λ _, None].
Proof.
  unfold cupy_ndarray, bind, ret, raise, alloc.
  destruct (String.eqb order "C"); [|destruct (String.eqb order "F")];
    intros [= <- <-] || intros [=]; done.
Qed.

Lemma new_then_write shp dt order (post : ndarray → Cu unit) dev r dev' :
  (∀ r0 d d', post r0 d = Ok (tt, d') →
     length d' = length d ∧ ∀ q, q ≠ mem (data r0) → d' !! q = d !! q) →
  (r0 <- cupy_ndarray shp dt None None order ;; post r0 ;;; ret r0) dev
  = Ok (r, dev') →
  shape r = shp ∧ dtype r = dt ∧
  data r = {| mem := length dev; mem_size := nbytes r; ptr := 0 |} ∧
  length dev' = S (length dev) ∧
  ∀ p b, dev !! p = Some b → dev' !! p = Some b.
Proof.
  intros Hframe. unfold bind at 1.
  destruct (cupy_ndarray shp dt None None order dev) as [[r0 dev1]|] eqn:Hnew;
    [|done].
  intros Hpost. apply then_ret_inv in Hpost as [-> Hpost].
  apply cupy_ndarray_fresh in Hnew as (Hs & Hd & Hdata & ->).
  apply Hframe in Hpost as [Hlen Hq].
  split_and!; try done.
  - rewrite Hlen, length_app. simpl. lia.
  - intros p b Hp. rewrite Hq.
    + by apply lookup_app_l_Some.
    + rewrite Hdata. simpl. apply lookup_lt_Some in Hp. lia.
Qed.

Lemma zeros_frame shp dt order dev r dev' :
  zeros shp dt order dev = Ok (r, dev') →
  shape r = shp ∧ dtype r = dt ∧
  data r = {| mem := length dev; mem_size := nbytes r; ptr := 0 |} ∧
  length dev' = S (length dev) ∧
  ∀ p b, dev !! p = Some b → dev' !! p = Some b.
Proof.
  apply (new_then_write shp dt order
           (λ r0, memset_async (data r0) 0 (nbytes r0))).
  intros r0 d d'. apply memset_frame.
Qed.

Lemma eye_frame N M k dt dev r dev' :
  eye N M k dt dev = Ok (r, dev') →
  shape r = [N; default N M] ∧ dtype r = dt ∧
  data r = {| mem := length dev; mem_size := nbytes r; ptr := 0 |} ∧
  length dev' = S (length dev) ∧
  ∀ p b, dev !! p = Some b → dev' !! p = Some b.
Proof.
  unfold eye, bind at 1.
  change (match M with Some m => m | None => N end) with (default N M).
  destruct (zeros _ _ _ dev) as [[r0 dev1]|] eqn:Hz; [|done].
  apply zeros_frame in Hz as (Hs & Hd & Hdata & Hlen & Hold).
  unfold bind at 1, diagonal.
  destruct (shape r0) as [|? [|? [|]]] eqn:Hshape; try done.
  destruct (strides r0) as [|? [|? [|]]]; try done.
  unfold ret at 1. intros Hpost. apply then_ret_inv in Hpost as [-> Hpost].
  unfold setitem_all in Hpost. apply fill_frame in Hpost as [Hlen' Hq].
  simpl in Hq. rewrite Hshape. split_and!; try done; [congruence|].
  intros p b Hp. rewrite Hq.
  - by apply Hold.
  - rewrite Hdata. simpl. apply lookup_lt_Some in Hp. lia.
Qed.

(** X11.  Whenever [empty], [zeros], [ones], [full], [eye] or [identity]
    returns, the new array owns, from offset 0, a buffer of exactly its
    [nbytes] that did not exist before; exactly one buffer was allocated;
    and every buffer that existed before the call is left as it was (the
    diagonal view of [eye] writes into the new array's buffer only). *)
Theorem creation_allocates_one_buffer
    (numpy_array_dtype : scalar → np_dtype) shp dt odt order fill_value
    N M k dev r dev' :
  empty shp dt order dev = Ok (r, dev') ∨
  zeros shp dt order dev = Ok (r, dev') ∨
  ones shp dt dev = Ok (r, dev') ∨
  full numpy_array_dtype shp fill_value odt dev = Ok (r, dev') ∨
  eye N M k dt dev = Ok (r, dev') ∨
  identity N dt dev = Ok (r, dev') →
  data r = {| mem := length dev; mem_size := nbytes r; ptr := 0 |} ∧
  length dev' = S (length dev) ∧
  ∀ p b, dev !! p = Some b → dev' !! p = Some b.
Proof.
  intros [Hrun|[Hrun|[Hrun|[Hrun|[Hrun|Hrun]]]]].
  - apply cupy_ndarray_fresh in Hrun as (_ & _ & Hdata & ->).
    split_and!; [done| |].
    + rewrite length_app. simpl. lia.
    + intros p b Hp. by apply lookup_app_l_Some.
  - apply zeros_frame in Hrun. tauto.
  - apply (new_then_write shp dt "C" (λ r0, fill r0 (PyScalar (PyInt 1))))
      in Hrun; [tauto|].
    intros r0 d d'. apply fill_frame.
  - unfold full in Hrun.
    apply (new_then_write shp _ "C" (λ r0, fill r0 fill_value)) in Hrun; [tauto|].
    intros r0 d d'. apply fill_frame.
  - apply eye_frame in Hrun. tauto.
  - apply eye_frame in Hrun. tauto.
Qed.

Lemma creation_allocates_one_buffer_witness :
  ∃ r dev',
    eye 3 None 1 float32 source_device = Ok (r, dev') ∧
    data r = {| mem := 1; mem_size := nbytes r; ptr := 0 |} ∧
    length dev' = 2%nat ∧
    ∀ p b, source_device !! p = Some b → dev' !! p = Some b.
Proof.
  eexists _, _. split; [reflexivity|].
  apply (creation_allocates_one_buffer (λ _, float32) [3; 3] float32 None "C"
           (PyScalar (PyInt 1)) 3 None 1 source_device).
  right. right. right. right. left. reflexivity.
Defined.

(** ** The explicit strides and the item size *)

Lemma fill_strides_scale c shp perm idims :
  ∀ stride strd,
    fill_strides shp perm idims (c * stride) (Z.mul c <$> strd)
    = match fill_strides shp perm idims stride strd with
      | Ok st => Ok (Z.mul c <$> st)
      | Raise e => Raise e
      end.
Proof.
  induction idims as [|idim idims IH]; intros stride strd; simpl; [done|].
  destruct (perm !! idim) as [i_perm|]; [|done].
  rewrite length_fmap.
  destruct (i_perm <? length strd)%nat; [|done].
  destruct (shp !! i_perm) as [n|]; [|done].
  rewrite <- IH. f_equal; [lia|].
  by rewrite list_fmap_insert.
Qed.

(** X12.  The explicit strides of the closest-match branch are
    proportional to the item size of the requested dtype: the strides
    computed for an item size c * s are c times the strides computed for
    the item size s, axis by axis, whatever the dtype of the source. *)
Theorem closest_match_strides_scale a dt1 dt2 c dev1 dev2 st1 m1 dev1' :
  itemsize dt2 = c * itemsize dt1 →
  _new_like_order_and_strides a dt1 "K" dev1 = Ok (("C", Some st1, m1), dev1') →
  ∃ m2 dev2',
    _new_like_order_and_strides a dt2 "K" dev2
    = Ok (("C", Some (Z.mul c <$> st1), m2), dev2').
Proof.
  intros Hc Hres. pose proof (resolver_explicit_inv _ _ _ _ _ _ _ _ Hres) as Hrun.
  revert Hres. unfold _new_like_order_and_strides.
  match goal with |- context [String.eqb ?x "C" || _] => set (order' := x) end.
  destruct (String.eqb order' "C"); [done|].
  destruct (String.eqb order' "F"); [done|].
  simpl. destruct (String.eqb order' "K"); [|done].
  intros _. unfold bind, lift. rewrite Hc.
  replace (replicate (ndim a) 0) with (Z.mul c <$> replicate (ndim a) 0).
  - rewrite fill_strides_scale, Hrun. eexists _, _. reflexivity.
  - rewrite fmap_replicate. by rewrite Z.mul_0_r.
Qed.

Lemma closest_match_strides_scale_witness :
  ∃ m2 dev2',
    _new_like_order_and_strides permuted_source int64 "K" source_device
    = Ok (("C", Some (Z.mul 2 <$> [4; 32; 8]), m2), dev2').
Proof.
  apply (closest_match_strides_scale permuted_source float32 int64 2
           source_device source_device [4; 32; 8]
           (Some {| mem := 1; mem_size := 96; ptr := 0 |})
           (source_device ++ [λ _, None])); reflexivity.
Defined.

(** ** Dense sources in the closest-match branch *)

Lemma c_strides_below shp isz :
  Forall (λ n, 2 ≤ n) shp → 0 < isz →
  0 < isz * prod_list shp ∧
  Forall (λ y, y < isz * prod_list shp) (c_strides shp isz).
Proof.
  intros Hshp Hisz. induction Hshp as [|n shp Hn Hshp [IHpos IH]].
  - split; [unfold prod_list; simpl; lia|constructor].
  - rewrite c_strides_cons.
    change (prod_list (n :: shp)) with (n * prod_list shp).
    assert (isz * prod_list shp < isz * (n * prod_list shp)) by nia.
    split; [lia|]. constructor; [done|].
    eapply Forall_impl; [exact IH|]. intros y Hy. simpl in Hy. lia.
Qed.

Lemma c_strides_decreasing shp isz :
  Forall (λ n, 2 ≤ n) shp → 0 < isz →
  StronglySorted (λ x y, y < x) (c_strides shp isz).
Proof.
  intros Hshp Hisz. induction Hshp as [|n shp Hn Hshp IH].
  - constructor.
  - rewrite c_strides_cons. constructor; [done|].
    by apply c_strides_below.
Qed.

Lemma StronglySorted_from_lookup {A} (R : relation A) l :
  (∀ i j x y, (i < j)%nat → l !! i = Some x → l !! j = Some y → R x y) →
  StronglySorted R l.
Proof.
  induction l as [|z l IH]; intros H; constructor.
  - apply IH. intros i j x y Hij Hi Hj. by apply (H (S i) (S j)); [lia|..].
  - apply Forall_forall. intros y Hy.
    apply list_elem_of_lookup in Hy as [j Hj].
    by apply (H 0%nat (S j)); [lia|..].
Qed.

Lemma StronglySorted_reverse {A} (R : relation A) l :
  StronglySorted R l → StronglySorted (flip R) (reverse l).
Proof.
  induction 1 as [|x l Hl IH Hx].
  - constructor.
  - rewrite reverse_cons. apply StronglySorted_app_2; [|done|repeat constructor].
    intros y z Hy Hz. apply list_elem_of_singleton in Hz as ->.
    rewrite elem_of_reverse in Hy. rewrite Forall_forall in Hx.
    by apply Hx.
Qed.

(** When the source's strides are all different and already a dense
    layout in the axis order [perm], the sort finds that order. *)
Lemma sorted_stride_perm_dense a isz perm :
  permuted_row_major (shape a) (strides a) isz perm →
  Forall (λ n, 2 ≤ n) (shape a) → 0 < isz →
  sorted_stride_perm a = perm.
Proof.
  intros (Hperm & Hlen & Hspec) Hshp Hisz.
  set (n := length (shape a)) in *. set (st := strides a) in *.
  set (rec := λ ax : nat, (default 0 (st !! ax), ax)).
  assert (Htmp : zip st (seq 0 (ndim a)) = rec <$> seq 0 n).
  { apply list_eq. intros i. rewrite lookup_zip_with, list_lookup_fmap.
    change (ndim a) with n.
    destruct (decide (i < n)%nat) as [Hi|Hi].
    - destruct (lookup_lt_is_Some_2 st i ltac:(lia)) as [s Hs].
      rewrite lookup_seq_lt by done. rewrite Hs. simpl. unfold rec.
      by rewrite Hs.
    - rewrite (lookup_ge_None_2 st) by lia.
      by rewrite lookup_seq_ge by lia. }
  pose proof (perm_in_range perm n Hperm) as Hrange.
  assert (Hsorted : StronglySorted (flip rec_le) (rec <$> perm)).
  { assert (Hshp' : Forall (λ n, 2 ≤ n) (take_axes (shape a) perm)).
    { by rewrite (take_axes_perm (shape a) perm Hperm). }
    pose proof (c_strides_decreasing _ isz Hshp' Hisz) as Hdec.
    apply StronglySorted_from_lookup. intros t u x y Htu Ht Hu.
    rewrite list_lookup_fmap in Ht, Hu.
    destruct (perm !! t) as [ax|] eqn:Hax; [|done].
    destruct (perm !! u) as [ay|] eqn:Hay; [|done].
    simpl in Ht, Hu. injection Ht as <-. injection Hu as <-.
    rewrite Forall_forall in Hrange.
    destruct (lookup_lt_is_Some_2 st ax) as [sx Hsx].
    { rewrite Hlen. apply Hrange. by eapply list_elem_of_lookup_2. }
    destruct (lookup_lt_is_Some_2 st ay) as [sy Hsy].
    { rewrite Hlen. apply Hrange. by eapply list_elem_of_lookup_2. }
    pose proof (Hspec t ax Hax) as Hcx. pose proof (Hspec u ay Hay) as Hcy.
    fold st in Hcx, Hcy. rewrite Hsx in Hcx. rewrite Hsy in Hcy.
    pose proof (StronglySorted_lookup _ _ _ _ _ _ Hdec Htu
                  (eq_sym Hcx) (eq_sym Hcy)) as Hlt.
    simpl in Hlt.
    unfold flip. apply rec_le_spec. unfold rec. rewrite Hsx, Hsy. simpl. lia. }
  unfold sorted_stride_perm. fold st. rewrite Htmp.
  rewrite <- (numpy_sort_unique (rec <$> seq 0 n) (reverse (rec <$> perm))).
  - rewrite reverse_involutive, <- list_fmap_compose.
    rewrite <- (list_fmap_id perm) at 2. by apply list_fmap_ext.
  - by rewrite reverse_Permutation, Hperm.
  - apply StronglySorted_reverse in Hsorted.
    eapply (StronglySorted_from_lookup rec_le).
    intros i j x y Hij Hi Hj.
    apply (StronglySorted_lookup _ _ _ _ _ _ Hsorted Hij Hi Hj).
Qed.

(** X13.  Mode 'K' reproduces a dense source exactly: when the source's
    strides lay its shape out densely in some axis order for the item
    size of the requested dtype, every extent is at least 2, and the
    source is contiguous in neither canonical order, the explicit strides
    the resolver returns are the source's own strides. *)
Theorem closest_match_keeps_dense_layout a dt perm dev :
  permuted_row_major (shape a) (strides a) (itemsize dt) perm →
  Forall (λ n, 2 ≤ n) (shape a) → 0 < itemsize dt →
  c_contiguous (flags a) = false → (2 ≤ ndim a)%nat →
  f_contiguous (flags a) = false →
  _new_like_order_and_strides a dt "K" dev
  = Ok (("C", Some (strides a),
         Some {| mem := length dev; mem_size := size a * itemsize dt;
                 ptr := 0 |}),
        dev ++ [λ _, None]).
Proof.
  intros Hdense Hshp Hisz Hc Hn Hf.
  pose proof Hdense as (Hperm & Hlen & Hspec).
  assert (Hwf : wf a) by exact Hlen.
  destruct (resolver_K_explicit a dt dev Hwf Hc Hn Hf)
    as (strd & Hres & Hl & Hstrd).
  rewrite (sorted_stride_perm_dense a (itemsize dt) perm Hdense Hshp Hisz)
    in Hstrd.
  assert (strd = strides a) as ->; [|done].
  apply list_eq. intros ax.
  destruct (decide (ax < ndim a)%nat) as [Hax|Hax].
  - assert (ax ∈ perm) as Hin.
    { rewrite Hperm. apply elem_of_seq. unfold ndim in Hax. lia. }
    apply list_elem_of_lookup in Hin as [t Ht].
    by rewrite (Hstrd t ax Ht), (Hspec t ax Ht).
  - rewrite !lookup_ge_None_2; [done|unfold ndim in *; lia|lia].
Qed.

Lemma closest_match_keeps_dense_layout_witness :
  _new_like_order_and_strides (array_of [2; 3; 4] [4; 32; 8] float32 0)
    float32 "K" source_device
  = Ok (("C", Some [4; 32; 8],
         Some {| mem := 1; mem_size := 24 * 4; ptr := 0 |}),
        source_device ++ [λ _, None]).
Proof.
  apply (closest_match_keeps_dense_layout
           (array_of [2; 3; 4] [4; 32; 8] float32 0) float32
           [1; 2; 0]%nat source_device).
  - split_and!; [|reflexivity|].
    + symmetry. apply (Permutation_cons_append [1; 2]%nat 0%nat).
    + intros [|[|[|t]]] ax Ht; simpl in Ht; try done; by injection Ht as <-.
  - repeat constructor; lia.
  - vm_compute. reflexivity.
  - reflexivity.
  - vm_compute. lia.
  - reflexivity.
Defined.

(** ** The axis order of the closest-match branch, in general *)

(** X14.  For every well-formed source, the axis order the closest-match
    branch computes lists the axes by non-increasing (signed) source
    stride, and of two axes with equal strides it lists the one with the
    larger index first. *)
Theorem sorted_perm_descending_larger_axis_first a p q i j :
  wf a → (p < q)%nat →
  sorted_stride_perm a !! p = Some i →
  sorted_stride_perm a !! q = Some j →
  ∃ si sj, strides a !! i = Some si ∧ strides a !! j = Some sj ∧
           (sj < si ∨ (sj = si ∧ (j < i)%nat)).
Proof. apply sorted_stride_perm_order. Qed.

Lemma sorted_perm_descending_larger_axis_first_witness :
  ∃ si sj, strides broadcast_source !! 1%nat = Some si ∧
           strides broadcast_source !! 0%nat = Some sj ∧
           (sj < si ∨ (sj = si ∧ (0 < 1)%nat)).
Proof.
  apply (sorted_perm_descending_larger_axis_first broadcast_source 0 1 1 0);
    [reflexivity|lia|reflexivity|reflexivity].
Defined.

(** ** Forced orders *)

(** X15.  With order 'C' or 'F' the layout of the source plays no part:
    [empty_like] returns, for every source, an array of the source's
    shape with the row-major, respectively column-major, strides for the
    requested dtype, flagged contiguous in that order.  With order 'A' it
    returns the column-major array when the source is flagged column-major
    contiguous and the row-major one otherwise. *)
Theorem forced_order_is_canonical a dt dev :
  let d := default (dtype a) dt in
  (∃ r dev',
     empty_like a dt "C" dev = Ok (r, dev') ∧ shape r = shape a ∧
     strides r = c_strides (shape a) (itemsize d) ∧
     c_contiguous (flags r) = true) ∧
  (∃ r dev',
     empty_like a dt "F" dev = Ok (r, dev') ∧ shape r = shape a ∧
     strides r = f_strides (shape a) (itemsize d) ∧
     f_contiguous (flags r) = true) ∧
  (∃ r dev',
     empty_like a dt "A" dev = Ok (r, dev') ∧ shape r = shape a ∧
     strides r = if f_contiguous (flags a) then f_strides (shape a) (itemsize d)
                 else c_strides (shape a) (itemsize d)).
Proof.
  intros d. split_and!.
  - eexists _, _. unfold empty_like, bind.
    change (match dt with Some d0 => d0 | None => dtype a end) with d.
    rewrite resolver_C, (cupy_ndarray_canonical _ _ "C") by (by left).
    split_and!; [reflexivity|done|done|apply c_contiguous_canonical].
  - eexists _, _. unfold empty_like, bind.
    change (match dt with Some d0 => d0 | None => dtype a end) with d.
    rewrite resolver_F, (cupy_ndarray_canonical _ _ "F") by (by right).
    split_and!; [reflexivity|done|done|apply f_contiguous_canonical].
  - unfold empty_like, bind.
    change (match dt with Some d0 => d0 | None => dtype a end) with d.
    rewrite resolver_A.
    destruct (f_contiguous (flags a)).
    + eexists _, _. rewrite (cupy_ndarray_canonical _ _ "F") by (by right).
      by split_and!.
    + eexists _, _. rewrite (cupy_ndarray_canonical _ _ "C") by (by left).
      by split_and!.
Qed.
